(** * Equipment alias generator (scripts/generateEquipmentAliases.py)

  A shallow embedding of the script that bootstraps [EquipmentAliases.ts]:
  the paginated catalog fetch ([getEquipmentData]), the construction of the
  item records, the stable sort by name, the rule chain of [main] and the
  text accumulated in the module-level variable [data].

  Conventions of the embedding:
  - a Python [str] is a [string] of bytes (its UTF-8 encoding); byte-wise
    lexicographic order on UTF-8 coincides with Python's code-point order,
    and the three patterns of the script are ASCII;
  - a Python [dict] is an association list in insertion order;
  - the printout ['Item ID'] carries JSON numbers (a number property of the
    wiki) and ['Version anchor'] carries JSON strings (a text property);
  - the module-level accumulator [data] is threaded explicitly. *)

From Stdlib Require Import ZArith String Ascii List Bool Lia DecimalString.
From Stdlib Require Import Permutation Sorted DecimalZ DecimalPos.
Import ListNotations.

Open Scope list_scope.
Open Scope string_scope.

(** ** Strings *)

Module PyStr.

(** The line feed, written ['\n'] in the source. *)
Definition nl : string := String "010" "".

(** The double quote that occurs in the header text. *)
Definition dq : string := String "034" "".

(** [strip_prefix p s] is [Some r] exactly when [s = p ++ r]. *)
Fixpoint strip_prefix (p s : string) {struct p} : option string :=
  match p with
  | EmptyString => Some s
  | String a p' =>
      match s with
      | EmptyString => None
      | String b s' => if Ascii.eqb a b then strip_prefix p' s' else None
      end
  end.

(** [str.rsplit('#', 1)]: [Some (before, after)] around the last ['#'],
    [None] when the string holds no ['#']. *)
Fixpoint rsplit_hash (s : string) : option (string * string) :=
  match s with
  | EmptyString => None
  | String c s' =>
      match rsplit_hash s' with
      | Some (before, after) => Some (String c before, after)
      | None => if Ascii.eqb c "#" then Some ("", s') else None
      end
  end.

(** [k.rsplit('#', 1)[0]] *)
Definition rsplit_hash_head (k : string) : string :=
  match rsplit_hash k with
  | Some (before, _) => before
  | None => k
  end.

(** [str(n)] for a Python [int]. *)
Definition str_int (n : Z) : string := NilZero.string_of_int (Z.to_int n).

(** ['%s' % v] for a value that is an [int] or [None]. *)
Definition str_opt_int (v : option Z) : string :=
  match v with
  | Some n => str_int n
  | None => "None"
  end.


Fixpoint concat_all (l : list string) : string :=
  match l with
  | [] => ""
  | s :: l' => s ++ concat_all l'
  end.

End PyStr.

(** ** The fragment of Python's [re] that the script uses *)

Module Re.
Import PyStr.

(** Pattern syntax: literals, ordered alternation, concatenation, the
    greedy [?], one capturing group (group 1) and the anchors [^] and [$].
    A non-capturing group [(?:...)] is plain nesting. *)
Inductive regex : Type :=
| Lit (s : string)
| Alt (r1 r2 : regex)
| Cat (r1 r2 : regex)
| Opt (r : regex)
| Group (r : regex)
| Bol
| Eol.

(** [$] without [re.MULTILINE]: at the end of the string, or just before a
    line feed that is the last character of the string. *)
Definition at_eol (rest : string) : bool :=
  (rest =? "") || (rest =? nl).

(** Backtracking matcher in continuation-passing style.  [pos] counts the
    characters consumed so far, [s] is the rest of the subject, [g] the
    text captured by group 1 on the current path.  Alternatives are tried
    left to right and [?] first tries to match its body, as [re] does. *)
Fixpoint rmatch {A : Type} (r : regex) (pos : nat) (s : string)
         (g : option string)
         (k : nat -> string -> option string -> option A) : option A :=
  match r with
  | Lit l =>
      match strip_prefix l s with
      | Some s' => k (pos + String.length l) s' g
      | None => None
      end
  | Alt r1 r2 =>
      match rmatch r1 pos s g k with
      | Some a => Some a
      | None => rmatch r2 pos s g k
      end
  | Cat r1 r2 => rmatch r1 pos s g (fun pos' s' g' => rmatch r2 pos' s' g' k)
  | Opt r1 =>
      match rmatch r1 pos s g k with
      | Some a => Some a
      | None => k pos s g
      end
  | Group r1 =>
      rmatch r1 pos s g
             (fun pos' s' _ => k pos' s' (Some (substring 0 (pos' - pos) s)))
  | Bol => if Nat.eqb pos 0 then k pos s g else None
  | Eol => if at_eol s then k pos s g else None
  end.

(** [re.match(pattern, subject)]: [None] when there is no match at the
    start of the subject, otherwise [Some g] with [g] the value of
    [.group(1)] ([None] when the group took no part in the match). *)
Definition re_match (r : regex) (subject : string) : option (option string) :=
  rmatch r 0 subject None (fun _ _ g => Some g).

(** Truth value of the match object in a condition. *)
Definition re_test (r : regex) (subject : string) : bool :=
  match re_match r subject with
  | Some _ => true
  | None => false
  end.

Fixpoint alt_of (first : string) (others : list string) : regex :=
  match others with
  | [] => Lit first
  | s :: others' => Alt (Lit first) (alt_of s others')
  end.

End Re.

(** ** Catalog fetcher *)

Module Fetcher.

(** The per-record object of the API: its [printouts], when present.
    ['Equipment slot'] is requested but never read. *)
Record printouts : Type := mkPrintouts {
  po_item_id : list Z;
  po_version_anchor : list string
}.

Definition wiki_record : Type := option printouts.

(** A [dict] from the raw record key to the record, in insertion order. *)
Definition wiki_dict : Type := list (string * wiki_record).

(** One JSON response.  [resp_results] is [None] when ['query'] or
    ['results'] is missing; [resp_continue] is the value of
    ['query-continue-offset'], when present.  The type covers the
    responses whose continuation offset is a JSON integer and whose result
    set is a JSON object; on a continuation offset sent as a string the
    comparison of the next iteration raises, and on a result set sent as
    an array the merge raises: neither is a value of this type. *)
Record response : Type := mkResponse {
  resp_results : option wiki_dict;
  resp_continue : option Z
}.

Definition REQUIRED_PRINTOUTS : list string :=
  ["Equipment slot"; "Item ID"; "Version anchor"].

Fixpoint dict_set (d : wiki_dict) (k : string) (v : wiki_record) : wiki_dict :=
  match d with
  | [] => [(k, v)]
  | (k', v') :: d' =>
      if k' =? k then (k', v) :: d' else (k', v') :: dict_set d' k v
  end.

(** [d1 | d2]: the keys of [d1] keep their place and take the value of
    [d2] on collision, new keys are appended in the order of [d2]. *)
Definition dict_union (d1 d2 : wiki_dict) : wiki_dict :=
  fold_left (fun d kv => dict_set d (fst kv) (snd kv)) d2 d1.

(** State of the [while True] loop at the top of an iteration, or the
    value returned after a [break]. *)
Inductive loop_state : Type :=
| Running (offset : Z) (equipment : wiki_dict)
| Returned (equipment : wiki_dict).

(** One iteration of the loop body on the response [data]. *)
Definition loop_body (offset : Z) (equipment : wiki_dict) (data : response)
  : loop_state :=
  match resp_results data with
  | None => Returned equipment
  | Some results =>
      let equipment := dict_union equipment results in
      match resp_continue data with
      | None => Returned equipment
      | Some continue_offset =>
          if (continue_offset <? offset)%Z then Returned equipment
          else Running continue_offset equipment
      end
  end.

(** [iterate n responses i st]: at most [n] iterations from state [st],
    the [i]-th request being answered by [responses i]. *)
Fixpoint iterate (n : nat) (responses : nat -> response) (i : nat)
         (st : loop_state) : loop_state :=
  match n with
  | O => st
  | S n' =>
      match st with
      | Returned _ => st
      | Running offset equipment =>
          iterate n' responses (S i) (loop_body offset equipment (responses i))
      end
  end.

(** [getEquipmentData] cut off after [fuel] requests: [Some equipment] when
    the function returned within that many requests. *)
Definition getEquipmentData (fuel : nat) (responses : nat -> response)
  : option wiki_dict :=
  match iterate fuel responses 0 (Running 0 []) with
  | Returned equipment => Some equipment
  | Running _ _ => None
  end.

End Fetcher.

(** ** Variant resolver *)

Module Resolver.
Import PyStr Re Fetcher.

(** An entry of [all_items]: the dict with keys ['name'], ['id'] and
    ['version'] built in [main]. *)
Record item : Type := mkItem {
  name : string;
  id : option Z;
  version : string
}.

(** SMW printouts are arrays: [None] for the empty array, else its head. *)
Definition getPrintoutValue {A : Type} (prop : list A) : option A :=
  match prop with
  | [] => None
  | x :: _ => Some x
  end.

(** [v or ''] for [v] a [str] or [None]. *)
Definition or_empty (v : option string) : string :=
  match v with
  | Some s => s
  | None => ""
  end.

(** The dict appended to [all_items] for the key [k] with printouts [po]. *)
Definition item_of (k : string) (po : printouts) : item :=
  {| name := rsplit_hash_head k;
     id := getPrintoutValue (po_item_id po);
     version := or_empty (getPrintoutValue (po_version_anchor po)) |}.

(** The first loop of [main]: records without ['printouts'] are skipped,
    the others are appended to [all_items]. *)
Definition collect_items (wiki_data : wiki_dict) : list item :=
  fold_left
    (fun all_items kv =>
       match snd kv with
       | None => all_items
       | Some po => (all_items ++ [item_of (fst kv) po])%list
       end)
    wiki_data [].

(** [all_items.sort(key=lambda d: d.get('name'))].  Python's sort is stable
    and the stable sorted arrangement of a list is unique, so it is written
    here as a stable insertion sort: an element is placed before the first
    element whose name is not smaller. *)
Fixpoint insert_by_name (x : item) (l : list item) : list item :=
  match l with
  | [] => [x]
  | y :: l' =>
      if String.leb (name x) (name y) then x :: l else y :: insert_by_name x l'
  end.

Fixpoint sort_by_name (l : list item) : list item :=
  match l with
  | [] => []
  | x :: l' => insert_by_name x (sort_by_name l')
  end.

(** Initial value of the module-level variable [data]. *)
Definition data : string :=
  "/**" ++ nl ++
  " * A map of item ID -> item ID for items that are identical in function, but different in appearance. This includes" ++ nl ++
  " * " ++ dq ++ "locked" ++ dq ++ " variants of items, broken/degraded variants of armour and weapons, and cosmetic recolours of equipment." ++ nl ++
  " * @see https://oldschool.runescape.wiki/w/Trouver_parchment" ++ nl ++
  " */" ++ nl ++
  "export const equipmentAliases = {".

(** [x['name'] == base_name and x['version'] == base_version] *)
Definition is_base (base_name base_version : string) (x : item) : bool :=
  (name x =? base_name) && (version x =? base_version).

(** [handle_base_variant], with the global [data] passed in and returned. *)
Definition handle_base_variant (all_items : list item) (variant_item : item)
           (base_name base_version : string) (data : string) : string :=
  match find (is_base base_name base_version) all_items with
  | Some base_variant =>
      data ++ (nl ++ "    " ++ str_opt_int (id variant_item) ++ ": " ++
               str_opt_int (id base_variant) ++ ", // " ++
               (name variant_item ++ "#" ++ version variant_item))
  | None => data
  end.

(** [^(?:Black|Green|Red|Purple|Turquoise|Hydra|Twisted|Tztok|Vampyric|Tzkal) slayer helmet( \(i\))?$] *)
Definition slayer_helm_re : regex :=
  Cat Bol
   (Cat (alt_of "Black" ["Green"; "Red"; "Purple"; "Turquoise"; "Hydra";
                         "Twisted"; "Tztok"; "Vampyric"; "Tzkal"])
    (Cat (Lit " slayer helmet")
     (Cat (Opt (Group (Lit " (i)"))) Eol))).

(** [^(Soul Wars|Emir's Arena)$] *)
Definition minigame_re : regex :=
  Cat Bol (Cat (Group (alt_of "Soul Wars" ["Emir's Arena"])) Eol).

(** [^(25|50|75|100)$] *)
Definition degraded_re : regex :=
  Cat Bol (Cat (Group (alt_of "25" ["50"; "75"; "100"])) Eol).

(** Body of the second loop of [main] for one [item]. *)
Definition main_step (all_items : list item) (item : item) (data : string)
  : string :=
  let slayer_helm_match := re_match slayer_helm_re (name item) in
  if version item =? "Locked" then
    handle_base_variant all_items item (name item) "Normal" data
  else
    match slayer_helm_match with
    | Some group1 =>
        handle_base_variant all_items item
                            ("Slayer helmet" ++ or_empty group1) "" data
    | None =>
        if re_test minigame_re (version item) then
          handle_base_variant all_items item (name item) "Nightmare Zone" data
        else if re_test degraded_re (version item) then
          handle_base_variant all_items item (name item) "Undamaged" data
        else data
    end.

(** The second loop of [main] over [items], with lookups in [all_items]. *)
Definition main_loop (all_items items : list item) (data : string) : string :=
  fold_left (fun data item => main_step all_items item data) items data.

(** [all_items] as the second loop sees it. *)
Definition all_items_of (wiki_data : wiki_dict) : list item :=
  sort_by_name (collect_items wiki_data).

(** [main], from the fetched [wiki_data] to the text written to the file. *)
Definition main (wiki_data : wiki_dict) : string :=
  let all_items := all_items_of wiki_data in
  main_loop all_items all_items data ++ (nl ++ "}").

End Resolver.

(** ** The alias mapping as a structured value *)

Module Mapping.
Import PyStr Re Fetcher Resolver.

(** One line of the output: variant identifier, base identifier and the
    comment [name#version] of the variant. *)
Record alias_entry : Type := mkAlias {
  variant_id : option Z;
  base_id : option Z;
  comment : string
}.

(** What the first loop of [main] appends for one entry of [wiki_data]. *)
Definition items_of_record (kv : string * wiki_record) : list item :=
  match snd kv with
  | None => []
  | Some po => [item_of (fst kv) po]
  end.

(** The order of the sort key. *)
Definition name_le (x y : item) : Prop := String.leb (name x) (name y) = true.

(** The [if]/[elif] chain of [main] read as a classifier: the name and
    version of the base record that the first applicable branch looks up. *)
Definition base_key (it : item) : option (string * string) :=
  if version it =? "Locked" then Some (name it, "Normal")
  else
    match re_match slayer_helm_re (name it) with
    | Some group1 => Some ("Slayer helmet" ++ or_empty group1, "")
    | None =>
        if re_test minigame_re (version it) then Some (name it, "Nightmare Zone")
        else if re_test degraded_re (version it) then Some (name it, "Undamaged")
        else None
    end.

(** The [next(...)] lookup of [handle_base_variant]. *)
Definition find_base (all_items : list item) (base_name base_version : string)
  : option item :=
  find (is_base base_name base_version) all_items.

Definition alias_for (variant base : item) : alias_entry :=
  {| variant_id := id variant;
     base_id := id base;
     comment := name variant ++ "#" ++ version variant |}.

(** The entries (none or one) that the loop body emits for [it]. *)
Definition emitted (all_items : list item) (it : item) : list alias_entry :=
  match base_key it with
  | Some (base_name, base_version) =>
      match find_base all_items base_name base_version with
      | Some base => [alias_for it base]
      | None => []
      end
  | None => []
  end.

Definition aliases (all_items items : list item) : list alias_entry :=
  flat_map (emitted all_items) items.

(** The entries of the output for the fetched [wiki_data], in output order. *)
Definition alias_mapping (wiki_data : wiki_dict) : list alias_entry :=
  aliases (all_items_of wiki_data) (all_items_of wiki_data).

(** The text of one entry, as [handle_base_variant] formats it. *)
Definition entry_line (e : alias_entry) : string :=
  nl ++ "    " ++ str_opt_int (variant_id e) ++ ": " ++
  str_opt_int (base_id e) ++ ", // " ++ comment e.

Definition id_eqb (a b : option Z) : bool :=
  match a, b with
  | Some x, Some y => Z.eqb x y
  | None, None => true
  | _, _ => false
  end.

(** [e] maps the identifier [vid] to the identifier [bid]. *)
Definition maps_to (vid bid : option Z) (e : alias_entry) : bool :=
  id_eqb (variant_id e) vid && id_eqb (base_id e) bid.

Definition count_aliases (vid bid : option Z) (entries : list alias_entry)
  : nat :=
  List.length (filter (maps_to vid bid) entries).

(** *** Invariants of the data model *)

Definition same_key (x y : item) : bool :=
  (name x =? name y) && (version x =? version y).

(** The pair (name, version) is unique within the catalog. *)
Fixpoint unique_keys (l : list item) : bool :=
  match l with
  | [] => true
  | x :: l' => negb (existsb (same_key x) l') && unique_keys l'
  end.

(** An identifier is never shared by distinct (name, version) pairs. *)
Definition ids_not_shared (l : list item) : bool :=
  forallb (fun x => forallb (fun y => implb (id_eqb (id x) (id y)) (same_key x y)) l) l.

Definition catalog_invariants (l : list item) : bool :=
  unique_keys l && ids_not_shared l.

(** *** The rules in the words of the specification *)

Definition SLAYER_PREFIXES : list string :=
  ["Black"; "Green"; "Red"; "Purple"; "Turquoise"; "Hydra"; "Twisted";
   "Tztok"; "Vampyric"; "Tzkal"].

Definition DEGRADED_TOKENS : list string := ["25"; "50"; "75"; "100"].

Definition MINIGAME_TOKENS : list string := ["Soul Wars"; "Emir's Arena"].

(** The version is exactly ["Locked"]. *)
Definition spec_locked (it : item) : bool := version it =? "Locked".

(** The name is a prefix of the list, then [" slayer helmet"], then [sfx]. *)
Definition spec_slayer_name (sfx : string) (it : item) : bool :=
  existsb (fun p => name it =? p ++ " slayer helmet" ++ sfx) SLAYER_PREFIXES.

Definition spec_slayer (it : item) : bool :=
  spec_slayer_name "" it || spec_slayer_name " (i)" it.

(** The version is exactly one of the two minigame tokens. *)
Definition spec_minigame (it : item) : bool :=
  existsb (String.eqb (version it)) MINIGAME_TOKENS.

(** The version is exactly one of the four degradation tokens. *)
Definition spec_degraded (it : item) : bool :=
  existsb (String.eqb (version it)) DEGRADED_TOKENS.

(** The record matches none of the four rules. *)
Definition spec_no_rule (it : item) : bool :=
  negb (spec_locked it || spec_slayer it || spec_minigame it || spec_degraded it).

(** The output text in the words of the specification: every entry but the
    last is followed by the separator, the last one is not. *)
Definition entry_line_no_separator (e : alias_entry) : string :=
  nl ++ "    " ++ str_opt_int (variant_id e) ++ ": " ++
  str_opt_int (base_id e) ++ " // " ++ comment e.

Fixpoint entry_lines_as_described (entries : list alias_entry) : string :=
  match entries with
  | [] => ""
  | [e] => entry_line_no_separator e
  | e :: rest => entry_line e ++ entry_lines_as_described rest
  end.

Definition serialize_as_described (entries : list alias_entry) : string :=
  data ++ entry_lines_as_described entries ++ (nl ++ "}").

End Mapping.

(** ** Sample inputs *)

Module Samples.
Import PyStr Fetcher Resolver Mapping.

Definition po (ids : list Z) (anchors : list string) : wiki_record :=
  Some (mkPrintouts ids anchors).

(** A server that answers every request with one record and the
    continuation offset 0, the offset of the first request. *)
Definition stalled_response : response :=
  {| resp_results := Some [("Abyssal whip", po [4151%Z] [])];
     resp_continue := Some 0%Z |}.

Definition stalled_server : nat -> response := fun _ => stalled_response.

(** Two pages, then a page without continuation offset. *)
Definition paged_server (i : nat) : response :=
  match i with
  | 0 => {| resp_results := Some [("Abyssal whip#Locked", po [21371%Z] ["Locked"])];
            resp_continue := Some 500%Z |}
  | 1 => {| resp_results := Some [("Abyssal whip#Normal", po [4151%Z] ["Normal"])];
            resp_continue := None |}
  | _ => {| resp_results := None; resp_continue := None |}
  end.

Definition whip : wiki_dict :=
  [("Abyssal whip#Locked", po [21371%Z] ["Locked"]);
   ("Abyssal whip#Normal", po [4151%Z] ["Normal"])].

Definition whip_locked : item := mkItem "Abyssal whip" (Some 21371%Z) "Locked".
Definition whip_normal : item := mkItem "Abyssal whip" (Some 4151%Z) "Normal".

Definition locked_helm : wiki_dict :=
  [("Black slayer helmet#Locked", po [1%Z] ["Locked"]);
   ("Slayer helmet", po [2%Z] [])].

Definition twisted_helm : wiki_dict :=
  [("Twisted slayer helmet (i)", po [100%Z] []);
   ("Slayer helmet (i)", po [200%Z] [])].

Definition degraded_helm : wiki_dict :=
  [("Black slayer helmet#25", po [1%Z] ["25"]);
   ("Black slayer helmet#Undamaged", po [2%Z] ["Undamaged"])].

Definition barrows : wiki_dict :=
  [("Dharok's helm#Undamaged", po [4716%Z] ["Undamaged"]);
   ("Dharok's helm#100", po [4880%Z] ["100"]);
   ("Dharok's helm#25", po [4883%Z] ["25"])].

Definition minigame_helm : wiki_dict :=
  [("Red slayer helmet#Soul Wars", po [1%Z] ["Soul Wars"]);
   ("Red slayer helmet#Nightmare Zone", po [2%Z] ["Nightmare Zone"])].

Definition minigame_cape : wiki_dict :=
  [("Fire cape#Nightmare Zone", po [6570%Z] ["Nightmare Zone"]);
   ("Fire cape#Emir's Arena", po [20000%Z] ["Emir's Arena"])].

Definition lone_degraded : wiki_dict :=
  [("Dharok's helm#50", po [4882%Z] ["50"]);
   ("Abyssal whip", po [4151%Z] [])].

Definition newline_version : wiki_dict :=
  [("Dharok's helm#Undamaged", po [4716%Z] ["Undamaged"]);
   ("Dharok's helm#25", po [4883%Z] ["25" ++ nl])].

Definition duplicated_base : wiki_dict :=
  [("Zamorak cape#Locked", po [10%Z] ["Locked"]);
   ("Bandos cape#Normal", po [30%Z] ["Normal"]);
   ("Zamorak cape#Normal", po [11%Z] ["Normal"]);
   ("Zamorak cape#Normal (beta)", po [12%Z] ["Normal"])].

Definition missing_id : wiki_dict :=
  [("Rune pouch#Locked", po [] ["Locked"]);
   ("Rune pouch#Normal", po [12791%Z] ["Normal"])].

Definition shared_ids : wiki_dict :=
  [("Abyssal whip#Locked", po [21371%Z] ["Locked"]);
   ("Abyssal whip#Normal", po [4151%Z] ["Normal"]);
   ("Abyssal tentacle#Locked", po [21371%Z] ["Locked"]);
   ("Abyssal tentacle#Normal", po [4151%Z] ["Normal"])].


(** The item records built from the samples above. *)
Definition black_helm_locked : item := mkItem "Black slayer helmet" (Some 1%Z) "Locked".
Definition plain_helm : item := mkItem "Slayer helmet" (Some 2%Z) "".
Definition twisted_helm_i : item := mkItem "Twisted slayer helmet (i)" (Some 100%Z) "".
Definition plain_helm_i : item := mkItem "Slayer helmet (i)" (Some 200%Z) "".
Definition black_helm_25 : item := mkItem "Black slayer helmet" (Some 1%Z) "25".
Definition black_helm_undamaged : item := mkItem "Black slayer helmet" (Some 2%Z) "Undamaged".
Definition dharok_undamaged : item := mkItem "Dharok's helm" (Some 4716%Z) "Undamaged".
Definition dharok_100 : item := mkItem "Dharok's helm" (Some 4880%Z) "100".
Definition dharok_25 : item := mkItem "Dharok's helm" (Some 4883%Z) "25".
Definition dharok_50 : item := mkItem "Dharok's helm" (Some 4882%Z) "50".
Definition dharok_25_nl : item := mkItem "Dharok's helm" (Some 4883%Z) ("25" ++ nl).
Definition red_helm_soul_wars : item := mkItem "Red slayer helmet" (Some 1%Z) "Soul Wars".
Definition red_helm_nmz : item := mkItem "Red slayer helmet" (Some 2%Z) "Nightmare Zone".
Definition cape_nmz : item := mkItem "Fire cape" (Some 6570%Z) "Nightmare Zone".
Definition cape_emir : item := mkItem "Fire cape" (Some 20000%Z) "Emir's Arena".
Definition zamorak_locked : item := mkItem "Zamorak cape" (Some 10%Z) "Locked".
Definition zamorak_normal_first : item := mkItem "Zamorak cape" (Some 11%Z) "Normal".
Definition zamorak_normal_second : item := mkItem "Zamorak cape" (Some 12%Z) "Normal".
Definition pouch_locked : item := mkItem "Rune pouch" None "Locked".
Definition pouch_normal : item := mkItem "Rune pouch" (Some 12791%Z) "Normal".

End Samples.

(** ** Notions used to state further properties *)

Module Notions.
Import PyStr Fetcher Resolver Mapping.

(** [k in d] and [d[k]] on a dict. *)
Definition dict_get (d : wiki_dict) (k : string) : option wiki_record :=
  match find (fun kv => fst kv =? k) d with
  | Some kv => Some (snd kv)
  | None => None
  end.

Definition dict_keys (d : wiki_dict) : list string := map fst d.

(** The string holds a ['#']. *)
Fixpoint has_hash (s : string) : bool :=
  match s with
  | EmptyString => false
  | String c s' => Ascii.eqb c "#" || has_hash s'
  end.

(** The offset of the [i]-th request when no earlier iteration left the
    loop: 0 at first, then the continuation offset of the last response. *)
Definition offset_before (responses : nat -> response) (i : nat) : Z :=
  match i with
  | O => 0%Z
  | S j =>
      match resp_continue (responses j) with
      | Some c => c
      | None => 0%Z
      end
  end.

(** The result sets of the first [n] responses merged in order. *)
Fixpoint pages_merged (responses : nat -> response) (n : nat) : wiki_dict :=
  match n with
  | O => []
  | S j =>
      match resp_results (responses j) with
      | Some results => dict_union (pages_merged responses j) results
      | None => pages_merged responses j
      end
  end.

(** The [i]-th response carries a result set and a continuation offset that
    is not below the offset of the request: the loop goes on. *)
Definition continues (responses : nat -> response) (i : nat) : bool :=
  match resp_results (responses i), resp_continue (responses i) with
  | Some _, Some c => (offset_before responses i <=? c)%Z
  | _, _ => false
  end.

(** The equipment held by a loop state. *)
Definition equipment_of (st : loop_state) : wiki_dict :=
  match st with
  | Running _ equipment => equipment
  | Returned equipment => equipment
  end.

(** The base names and versions that the four branches look up. *)
Definition is_designated_base (variant base : item) : bool :=
  ((version variant =? "Locked") && (name base =? name variant)
   && (version base =? "Normal"))
  || (((name base =? "Slayer helmet") || (name base =? "Slayer helmet (i)"))
      && (version base =? ""))
  || ((name base =? name variant) && (version base =? "Nightmare Zone"))
  || ((name base =? name variant) && (version base =? "Undamaged")).

(** The items of the catalog that carry the identifier [vid]. *)
Definition carriers (vid : option Z) (l : list item) : list item :=
  filter (fun x => id_eqb (id x) vid) l.

(** The name is one of the cosmetic slayer-helmet names followed by a line
    feed. *)
Definition spec_slayer_then_newline (it : item) : bool :=
  existsb (fun p => (name it =? p ++ " slayer helmet" ++ nl)
                    || (name it =? p ++ " slayer helmet (i)" ++ nl))
          SLAYER_PREFIXES.

(** A branch of the chain takes [it] and some record of [all_items] has
    the name and version that the branch looks up. *)
Definition has_base (all_items : list item) (it : item) : bool :=
  match base_key it with
  | Some (bn, bv) => existsb (is_base bn bv) all_items
  | None => false
  end.

End Notions.

(** ** The fetch loop on integer and string continuation offsets *)

Module FetcherJson.
Import PyStr Fetcher.

(** The value of ['query-continue-offset']: a JSON integer or a JSON
    string.  It is kept as it is in [offset] (line 48). *)
Inductive json_offset : Type :=
| JInt (n : Z)
| JStr (s : string).

Record json_response : Type := mkJsonResponse {
  jr_results : option wiki_dict;
  jr_continue : option json_offset
}.

(** State of the loop, with the case of an exception leaving the function. *)
Inductive json_state : Type :=
| JRunning (offset : json_offset) (equipment : wiki_dict)
| JReturned (equipment : wiki_dict)
| JRaised.

(** [n < offset] for an [int] [n]: a [TypeError] when [offset] is a [str]. *)
Definition int_lt (n : Z) (offset : json_offset) : option bool :=
  match offset with
  | JInt m => Some (n <? m)%Z
  | JStr _ => None
  end.

Section WithInt.

(** [int(s)] for a [str]: [None] when it raises [ValueError]. *)
Variable int_of_str : string -> option Z.

Definition py_int (v : json_offset) : option Z :=
  match v with
  | JInt n => Some n
  | JStr s => int_of_str s
  end.

(** One iteration: [int(...)] is evaluated before the comparison. *)
Definition json_loop_body (offset : json_offset) (equipment : wiki_dict)
           (data : json_response) : json_state :=
  match jr_results data with
  | None => JReturned equipment
  | Some results =>
      let equipment := dict_union equipment results in
      match jr_continue data with
      | None => JReturned equipment
      | Some continue_offset =>
          match py_int continue_offset with
          | None => JRaised
          | Some n =>
              match int_lt n offset with
              | None => JRaised
              | Some true => JReturned equipment
              | Some false => JRunning continue_offset equipment
              end
          end
      end
  end.

Fixpoint json_iterate (n : nat) (responses : nat -> json_response) (i : nat)
         (st : json_state) : json_state :=
  match n with
  | O => st
  | S n' =>
      match st with
      | JRunning offset equipment =>
          json_iterate n' responses (S i)
                       (json_loop_body offset equipment (responses i))
      | _ => st
      end
  end.

End WithInt.

(** A response with an integer offset, and a state of the integer loop,
    seen in this model. *)
Definition of_response (r : response) : json_response :=
  {| jr_results := resp_results r;
     jr_continue := option_map JInt (resp_continue r) |}.

Definition of_state (st : loop_state) : json_state :=
  match st with
  | Running offset equipment => JRunning (JInt offset) equipment
  | Returned equipment => JReturned equipment
  end.

End FetcherJson.

(** * Properties *)

(** ** Strings *)

Module PyStrFacts.
Import PyStr.

Lemma append_assoc (a b c : string) : (a ++ b) ++ c = a ++ (b ++ c).
Proof. induction a as [|x a IH]; simpl; [reflexivity | now rewrite IH]. Qed.

Lemma append_empty_r (a : string) : a ++ "" = a.
Proof. induction a as [|x a IH]; simpl; [reflexivity | now rewrite IH]. Qed.

Lemma append_inv_head (a b c : string) : a ++ b = a ++ c -> b = c.
Proof.
  induction a as [|x a IH]; simpl; intros H; [exact H|].
  injection H as H. now apply IH.
Qed.

Lemma strip_prefix_append (p r : string) : strip_prefix p (p ++ r) = Some r.
Proof.
  induction p as [|a p IH]; simpl; [reflexivity|].
  now rewrite Ascii.eqb_refl.
Qed.

Lemma strip_prefix_Some (p s r : string) :
  strip_prefix p s = Some r -> s = p ++ r.
Proof.
  revert s. induction p as [|a p IH]; simpl; intros s H.
  - now injection H as ->.
  - destruct s as [|b s]; [discriminate|].
    destruct (Ascii.eqb a b) eqn:E; [|discriminate].
    apply Ascii.eqb_eq in E. subst b. now rewrite (IH _ H).
Qed.

Lemma strip_prefix_spec (p s r : string) :
  strip_prefix p s = Some r <-> s = p ++ r.
Proof.
  split; [apply strip_prefix_Some | intros ->; apply strip_prefix_append].
Qed.

Lemma concat_all_app (l1 l2 : list string) :
  concat_all (l1 ++ l2)%list = concat_all l1 ++ concat_all l2.
Proof.
  induction l1 as [|s l1 IH]; simpl; [reflexivity|].
  now rewrite IH, append_assoc.
Qed.

Lemma append_inv_empty (a b : string) : a = a ++ b -> b = "".
Proof.
  intros H. symmetry. apply (append_inv_head a).
  now rewrite append_empty_r.
Qed.

Lemma leb_refl (s : string) : String.leb s s = true.
Proof. now destruct (String.leb_total s s). Qed.

Lemma leb_false_neq (s t : string) : String.leb s t = false -> s <> t.
Proof. intros H ->. now rewrite leb_refl in H. Qed.

Lemma substring_prefix (l s : string) :
  substring 0 (String.length l) (l ++ s) = l.
Proof.
  induction l as [|c l IH]; cbn; [now destruct s | now rewrite IH].
Qed.


End PyStrFacts.

(** ** What a successful match says about the subject *)

Module ReFacts.
Import PyStr PyStrFacts Re.

Section Inversion.
Context {A : Type} (k : nat -> string -> option string -> option A).

Lemma rmatch_Cat r1 r2 pos s g :
  rmatch (Cat r1 r2) pos s g k
  = rmatch r1 pos s g (fun pos' s' g' => rmatch r2 pos' s' g' k).
Proof. reflexivity. Qed.

Lemma rmatch_Bol s g : rmatch Bol 0 s g k = k 0 s g.
Proof. reflexivity. Qed.

Lemma rmatch_Group r pos s g :
  rmatch (Group r) pos s g k
  = rmatch r pos s g
           (fun pos' s' _ => k pos' s' (Some (substring 0 (pos' - pos) s))).
Proof. reflexivity. Qed.

Lemma rmatch_Lit l pos s g a :
  rmatch (Lit l) pos s g k = Some a ->
  exists s', s = l ++ s' /\ k (pos + String.length l) s' g = Some a.
Proof.
  cbn [rmatch]. destruct (strip_prefix l s) as [s'|] eqn:E; [|discriminate].
  intros H. exists s'. split; [now apply strip_prefix_Some | exact H].
Qed.

Lemma rmatch_Alt r1 r2 pos s g a :
  rmatch (Alt r1 r2) pos s g k = Some a ->
  rmatch r1 pos s g k = Some a \/ rmatch r2 pos s g k = Some a.
Proof. cbn [rmatch]. destruct (rmatch r1 pos s g k); auto. Qed.

Lemma rmatch_Opt r pos s g a :
  rmatch (Opt r) pos s g k = Some a ->
  rmatch r pos s g k = Some a \/ k pos s g = Some a.
Proof. cbn [rmatch]. destruct (rmatch r pos s g k); auto. Qed.

Lemma at_eol_true s : at_eol s = true -> s = "" \/ s = nl.
Proof.
  unfold at_eol.
  destruct (String.eqb_spec s ""); [auto|].
  destruct (String.eqb_spec s nl); [auto|]. discriminate.
Qed.

Lemma rmatch_Eol pos s g a :
  rmatch Eol pos s g k = Some a ->
  (s = "" \/ s = nl) /\ k pos s g = Some a.
Proof.
  cbn [rmatch]. destruct (at_eol s) eqn:E; [|discriminate].
  split; [now apply at_eol_true | assumption].
Qed.

Lemma rmatch_alt_of first others pos s g a :
  rmatch (alt_of first others) pos s g k = Some a ->
  exists l s', In l (first :: others) /\ s = l ++ s' /\
               k (pos + String.length l) s' g = Some a.
Proof.
  revert first.
  induction others as [|o others IH]; intros first H; cbn [alt_of] in H.
  - apply rmatch_Lit in H as (s' & Hs & Hk).
    exists first, s'. split; [now left | auto].
  - apply rmatch_Alt in H as [H|H].
    + apply rmatch_Lit in H as (s' & Hs & Hk).
      exists first, s'. split; [now left | auto].
    + destruct (IH _ H) as (l & s' & Hin & Hs & Hk).
      exists l, s'. split; [now right | auto].
Qed.

End Inversion.

(** A pattern [^(t1|t2|...)$] matches a token of the list, possibly
    followed by one line feed. *)
Lemma token_pattern_match first others v :
  re_test (Cat Bol (Cat (Group (alt_of first others)) Eol)) v = true ->
  exists tok, In tok (first :: others) /\ (v = tok \/ v = tok ++ nl).
Proof.
  unfold re_test, re_match.
  destruct (rmatch _ 0 v None _) as [g|] eqn:H; [intros _|discriminate].
  rewrite rmatch_Cat, rmatch_Bol, rmatch_Cat, rmatch_Group in H.
  apply rmatch_alt_of in H as (tok & s1 & Hin & -> & H).
  apply rmatch_Eol in H as [He _].
  exists tok. split; [exact Hin|].
  destruct He as [-> | ->]; [left; apply append_empty_r | now right].
Qed.

End ReFacts.

(** ** The fetch loop *)

Module FetcherFacts.
Import PyStr Fetcher Samples.

Lemma loop_body_no_results offset equipment data :
  resp_results data = None ->
  loop_body offset equipment data = Returned equipment.
Proof. unfold loop_body. now intros ->. Qed.

Lemma loop_body_no_continue offset equipment data results :
  resp_results data = Some results ->
  resp_continue data = None ->
  loop_body offset equipment data = Returned (dict_union equipment results).
Proof. unfold loop_body. now intros -> ->. Qed.

Lemma loop_body_backwards offset equipment data results c :
  resp_results data = Some results ->
  resp_continue data = Some c ->
  (c < offset)%Z ->
  loop_body offset equipment data = Returned (dict_union equipment results).
Proof.
  unfold loop_body. intros -> -> H.
  apply Z.ltb_lt in H. now rewrite H.
Qed.

(** The guard compares with [<]: a continuation offset that is not smaller
    than the current one, the current one included, keeps the loop going. *)
Lemma loop_body_continues offset equipment data results c :
  resp_results data = Some results ->
  resp_continue data = Some c ->
  (offset <= c)%Z ->
  loop_body offset equipment data = Running c (dict_union equipment results).
Proof.
  unfold loop_body. intros -> -> H.
  apply Z.ltb_ge in H. now rewrite H.
Qed.

Lemma iterate_Returned n responses i equipment :
  iterate n responses i (Returned equipment) = Returned equipment.
Proof. now destruct n. Qed.

(** Once an iteration breaks out of the loop, more fuel changes nothing. *)
Lemma iterate_break n responses i offset equipment result :
  loop_body offset equipment (responses i) = Returned result ->
  iterate (S n) responses i (Running offset equipment) = Returned result.
Proof. simpl. intros ->. apply iterate_Returned. Qed.

Lemma stalled_server_keeps_running n :
  forall i equipment, exists equipment',
    iterate n stalled_server i (Running 0 equipment) = Running 0 equipment'.
Proof.
  induction n as [|n IH]; intros i equipment.
  - now exists equipment.
  - cbn [iterate].
    rewrite (loop_body_continues 0 equipment (stalled_server i) _ 0%Z eq_refl eq_refl);
      [apply IH | lia].
Qed.

(** A run that ends: two pages, the second without continuation offset. *)
Example getEquipmentData_paged :
  getEquipmentData 2 paged_server = Some whip.
Proof. reflexivity. Qed.

(** C1 (defect of the guard): the claim lets the loop stop when the
    continuation offset equals the current offset.  On a server that answers
    every request with a result set and the continuation offset 0, the
    offset of the first request, [getEquipmentData] has not returned after
    any number of requests: the test [int(...) < offset] is false for equal
    offsets, so the same offset is requested again. *)
Theorem getEquipmentData_equal_offset_never_returns :
  forall fuel, getEquipmentData fuel stalled_server = None.
Proof.
  intros fuel. unfold getEquipmentData.
  destruct (stalled_server_keeps_running fuel 0 []) as [equipment' ->].
  reflexivity.
Qed.

End FetcherFacts.

(** ** Building and sorting the catalog *)

Module CatalogFacts.
Import PyStr PyStrFacts Fetcher Resolver Mapping.

Lemma collect_items_from (wiki_data : wiki_dict) (acc : list item) :
  fold_left
    (fun all_items kv =>
       match snd kv with
       | None => all_items
       | Some po => (all_items ++ [item_of (fst kv) po])%list
       end)
    wiki_data acc
  = (acc ++ flat_map items_of_record wiki_data)%list.
Proof.
  revert acc. induction wiki_data as [|[k v] w IH]; intros acc; simpl.
  - now rewrite app_nil_r.
  - rewrite IH. unfold items_of_record at 2. simpl.
    destruct v as [po|]; simpl; [now rewrite <- app_assoc | reflexivity].
Qed.

Lemma collect_items_flat_map (wiki_data : wiki_dict) :
  collect_items wiki_data = flat_map items_of_record wiki_data.
Proof. unfold collect_items. now rewrite collect_items_from. Qed.

(** A record with printouts is never skipped. *)
Lemma collect_items_keeps (wiki_data : wiki_dict) k po :
  In (k, Some po) wiki_data -> In (item_of k po) (collect_items wiki_data).
Proof.
  intros H. rewrite collect_items_flat_map. apply in_flat_map.
  exists (k, Some po). split; [exact H | now left].
Qed.

Lemma insert_by_name_perm x l : Permutation (x :: l) (insert_by_name x l).
Proof.
  induction l as [|y l IH]; simpl; [reflexivity|].
  destruct (String.leb (name x) (name y)); [reflexivity|].
  rewrite perm_swap. now apply perm_skip.
Qed.

Lemma sort_by_name_perm l : Permutation l (sort_by_name l).
Proof.
  induction l as [|x l IH]; simpl; [constructor|].
  rewrite <- insert_by_name_perm. now apply perm_skip.
Qed.

Lemma sort_by_name_In x l : In x (sort_by_name l) <-> In x l.
Proof.
  split; apply Permutation_in;
    [symmetry|]; apply sort_by_name_perm.
Qed.

Lemma insert_by_name_sorted x l :
  Sorted name_le l -> Sorted name_le (insert_by_name x l).
Proof.
  induction 1 as [|y l Hs IH Hhd]; simpl.
  - repeat constructor.
  - destruct (String.leb (name x) (name y)) eqn:E.
    + constructor; [now constructor | now constructor].
    + constructor; [exact IH|].
      assert (Hyx : name_le y x).
      { unfold name_le. destruct (String.leb_total (name x) (name y)); congruence. }
      destruct Hhd as [|z l Hyz]; simpl; [now constructor|].
      destruct (String.leb (name x) (name z)); now constructor.
Qed.

Lemma sort_by_name_sorted l : Sorted name_le (sort_by_name l).
Proof.
  induction l as [|x l IH]; simpl; [constructor | now apply insert_by_name_sorted].
Qed.

(** Stability: among the records of one name, the order is unchanged. *)
Lemma insert_by_name_filter n x l :
  filter (fun y => name y =? n) (insert_by_name x l)
  = filter (fun y => name y =? n) (x :: l).
Proof.
  induction l as [|y l IH]; [reflexivity|].
  cbn [insert_by_name].
  destruct (String.leb (name x) (name y)) eqn:E; [reflexivity|].
  apply leb_false_neq in E.
  cbn [filter] in *. rewrite IH.
  destruct (String.eqb_spec (name x) n) as [Hx|Hx];
    destruct (String.eqb_spec (name y) n) as [Hy|Hy]; try reflexivity.
  congruence.
Qed.

Lemma sort_by_name_stable n l :
  filter (fun y => name y =? n) (sort_by_name l)
  = filter (fun y => name y =? n) l.
Proof.
  induction l as [|x l IH]; [reflexivity|].
  cbn [sort_by_name]. rewrite insert_by_name_filter.
  cbn [filter]. now rewrite IH.
Qed.

Lemma find_base_filter all_items bn bv :
  find_base all_items bn bv
  = find_base (filter (fun y => name y =? bn) all_items) bn bv.
Proof.
  unfold find_base.
  induction all_items as [|x l IH]; [reflexivity|].
  cbn [filter find]. unfold is_base at 1.
  destruct (name x =? bn) eqn:E; cbn [andb find].
  - unfold is_base at 2. rewrite E. cbn [andb].
    destruct (version x =? bv); [reflexivity | exact IH].
  - exact IH.
Qed.

(** Sorting does not change which record a base lookup finds. *)
Lemma find_base_sort l bn bv :
  find_base (sort_by_name l) bn bv = find_base l bn bv.
Proof.
  rewrite find_base_filter, sort_by_name_stable. symmetry. apply find_base_filter.
Qed.

Lemma find_base_Some all_items bn bv b :
  find_base all_items bn bv = Some b ->
  In b all_items /\ name b = bn /\ version b = bv.
Proof.
  unfold find_base. intros H. apply find_some in H as [Hin Hb].
  unfold is_base in Hb. apply andb_true_iff in Hb as [Hn Hv].
  apply String.eqb_eq in Hn, Hv. auto.
Qed.

Lemma find_base_None all_items bn bv :
  (forall x, In x all_items -> ~ (name x = bn /\ version x = bv)) ->
  find_base all_items bn bv = None.
Proof.
  intros H. unfold find_base.
  destruct (find (is_base bn bv) all_items) as [b|] eqn:E; [|reflexivity].
  apply (find_base_Some all_items) in E as (Hin & Hn & Hv).
  now destruct (H b Hin).
Qed.

Lemma find_base_exists all_items bn bv x :
  In x all_items -> name x = bn -> version x = bv ->
  exists b, find_base all_items bn bv = Some b.
Proof.
  intros Hin Hn Hv. unfold find_base.
  destruct (find (is_base bn bv) all_items) as [b|] eqn:E; [now exists b|].
  apply (find_none _ _ E) in Hin. unfold is_base in Hin.
  rewrite Hn, Hv, !String.eqb_refl in Hin. discriminate.
Qed.

End CatalogFacts.

(** ** The output text and the alias mapping *)

Module OutputFacts.
Import PyStr PyStrFacts Fetcher Resolver Mapping Samples CatalogFacts.

Lemma handle_base_variant_found all_items variant bn bv base data :
  find_base all_items bn bv = Some base ->
  handle_base_variant all_items variant bn bv data
  = data ++ entry_line (alias_for variant base).
Proof. unfold handle_base_variant, find_base. now intros ->. Qed.

Lemma handle_base_variant_missing all_items variant bn bv data :
  find_base all_items bn bv = None ->
  handle_base_variant all_items variant bn bv data = data.
Proof. unfold handle_base_variant, find_base. now intros ->. Qed.

(** The loop body is [handle_base_variant] at the key chosen by the chain. *)
Lemma main_step_base_key all_items it data :
  main_step all_items it data
  = match base_key it with
    | Some (bn, bv) => handle_base_variant all_items it bn bv data
    | None => data
    end.
Proof.
  unfold main_step, base_key.
  destruct (version it =? "Locked"); [reflexivity|].
  destruct (Re.re_match slayer_helm_re (name it)); [reflexivity|].
  destruct (Re.re_test minigame_re (version it)); [reflexivity|].
  destruct (Re.re_test degraded_re (version it)); reflexivity.
Qed.

Lemma main_step_emitted all_items it data :
  main_step all_items it data
  = data ++ concat_all (map entry_line (emitted all_items it)).
Proof.
  rewrite main_step_base_key. unfold emitted.
  destruct (base_key it) as [[bn bv]|]; cbn [map concat_all].
  - destruct (find_base all_items bn bv) as [b|] eqn:E; cbn [map concat_all].
    + rewrite (handle_base_variant_found _ _ _ _ _ _ E).
      now rewrite append_empty_r.
    + rewrite (handle_base_variant_missing _ _ _ _ _ E).
      now rewrite append_empty_r.
  - now rewrite append_empty_r.
Qed.

Lemma main_loop_aliases all_items items data :
  main_loop all_items items data
  = data ++ concat_all (map entry_line (aliases all_items items)).
Proof.
  unfold main_loop, aliases. revert data.
  induction items as [|it items IH]; intros data; cbn [fold_left flat_map].
  - cbn. now rewrite append_empty_r.
  - rewrite IH, main_step_emitted, map_app, concat_all_app.
    now rewrite append_assoc.
Qed.

Lemma main_serialized wiki_data :
  main wiki_data
  = data ++ concat_all (map entry_line (alias_mapping wiki_data)) ++ (nl ++ "}").
Proof.
  unfold main, alias_mapping. cbv zeta.
  now rewrite main_loop_aliases, append_assoc.
Qed.

(** Where an entry comes from. *)
Lemma aliases_origin all_items items e :
  In e (aliases all_items items) ->
  exists it base bn bv,
    In it items /\ base_key it = Some (bn, bv) /\
    find_base all_items bn bv = Some base /\ e = alias_for it base.
Proof.
  unfold aliases. intros H. apply in_flat_map in H as (it & Hit & He).
  unfold emitted in He.
  destruct (base_key it) as [[bn bv]|] eqn:Ek; [|contradiction].
  destruct (find_base all_items bn bv) as [b|] eqn:Ef; [|contradiction].
  destruct He as [<-|[]]. now exists it, b, bn, bv.
Qed.

Lemma emitted_in_aliases all_items items it e :
  In it items -> In e (emitted all_items it) -> In e (aliases all_items items).
Proof.
  intros Hit He. unfold aliases. apply in_flat_map. now exists it.
Qed.

Lemma emitted_found all_items it bn bv base :
  base_key it = Some (bn, bv) ->
  find_base all_items bn bv = Some base ->
  emitted all_items it = [alias_for it base].
Proof. unfold emitted. now intros -> ->. Qed.

Lemma emitted_missing all_items it bn bv :
  base_key it = Some (bn, bv) ->
  find_base all_items bn bv = None ->
  emitted all_items it = [].
Proof. unfold emitted. now intros -> ->. Qed.

(** C2 (as amended): the text written by [main] is the header, one line
    [    variant: base, // name#version] per alias entry, and the closing
    brace on a line of its own.  Every entry, the final one included, is
    followed by the separator and by the comment naming the variant. *)
Theorem main_every_entry_line_has_separator :
  forall wiki_data,
    main wiki_data
    = data ++ concat_all (map entry_line (alias_mapping wiki_data)) ++ (nl ++ "}")
    /\ forall e, In e (alias_mapping wiki_data) ->
         entry_line e
         = nl ++ "    " ++ str_opt_int (variant_id e) ++ ": " ++
           str_opt_int (base_id e) ++ "," ++ " // " ++ comment e
         /\ exists it, In it (all_items_of wiki_data) /\
              variant_id e = id it /\
              comment e = name it ++ "#" ++ version it.
Proof.
  intros wiki_data. split; [apply main_serialized|].
  intros e He. split; [reflexivity|].
  apply aliases_origin in He as (it & base & bn & bv & Hit & _ & _ & ->).
  now exists it.
Qed.

Lemma main_every_entry_line_has_separator_witness :
  In (alias_for whip_locked whip_normal) (alias_mapping whip) /\
  entry_line (alias_for whip_locked whip_normal)
  = nl ++ "    21371: 4151, // Abyssal whip#Locked".
Proof.
  split; [left; reflexivity|].
  destruct (main_every_entry_line_has_separator whip) as [_ H].
  destruct (H (alias_for whip_locked whip_normal)) as [Hline _];
    [left; reflexivity|].
  exact Hline.
Defined.

(** C2 (as stated, refuted): with a single alias entry, that entry is the
    final one, and the text written still has the separator after it; the
    output differs from the text that leaves the separator out there. *)
Lemma main_final_entry_has_separator :
  alias_mapping whip = [alias_for whip_locked whip_normal] /\
  main whip
  = data ++ nl ++ "    21371: 4151" ++ "," ++ " // Abyssal whip#Locked" ++ nl ++ "}" /\
  main whip <> serialize_as_described (alias_mapping whip).
Proof.
  split; [reflexivity|]. split; [reflexivity|].
  apply String.eqb_neq. vm_compute. reflexivity.
Qed.

End OutputFacts.

(** ** Invariants of the data model *)

Module InvariantFacts.
Import PyStr PyStrFacts Fetcher Resolver Mapping CatalogFacts OutputFacts.

Lemma same_key_true x y :
  same_key x y = true <-> name x = name y /\ version x = version y.
Proof.
  unfold same_key. rewrite andb_true_iff, !String.eqb_eq. reflexivity.
Qed.

Lemma id_eqb_eq a b : id_eqb a b = true <-> a = b.
Proof.
  destruct a as [x|], b as [y|]; simpl; try (split; congruence).
  rewrite Z.eqb_eq. split; congruence.
Qed.

Lemma id_eqb_refl a : id_eqb a a = true.
Proof. now apply id_eqb_eq. Qed.

Lemma unique_keys_tail x l : unique_keys (x :: l) = true -> unique_keys l = true.
Proof. simpl. rewrite andb_true_iff. tauto. Qed.

Lemma unique_keys_head x y l :
  unique_keys (x :: l) = true -> In y l -> same_key x y = false.
Proof.
  simpl. rewrite andb_true_iff, negb_true_iff. intros [H _] Hy.
  destruct (same_key x y) eqn:E; [|reflexivity].
  assert (existsb (same_key x) l = true) by (apply existsb_exists; eauto).
  congruence.
Qed.

(** With unique keys, the base lookup finds the record with that key. *)
Lemma unique_keys_find_base l base bn bv :
  unique_keys l = true ->
  In base l -> name base = bn -> version base = bv ->
  find_base l bn bv = Some base.
Proof.
  intros Hu Hin Hn Hv. unfold find_base.
  induction l as [|x l IH]; [contradiction|].
  cbn [find]. destruct (is_base bn bv x) eqn:E.
  - destruct Hin as [->|Hin]; [reflexivity|].
    unfold is_base in E. apply andb_true_iff in E as [En Ev].
    apply String.eqb_eq in En, Ev.
    assert (same_key x base = true) by (apply same_key_true; split; congruence).
    rewrite (unique_keys_head _ _ _ Hu Hin) in H. discriminate.
  - destruct Hin as [->|Hin].
    + unfold is_base in E. rewrite Hn, Hv, !String.eqb_refl in E. discriminate.
    + apply IH; [eapply unique_keys_tail; eassumption | exact Hin].
Qed.

Lemma ids_not_shared_spec l :
  ids_not_shared l = true ->
  forall x y, In x l -> In y l -> id x = id y -> same_key x y = true.
Proof.
  unfold ids_not_shared. rewrite forallb_forall. intros H x y Hx Hy Hid.
  specialize (H x Hx). rewrite forallb_forall in H. specialize (H y Hy).
  apply id_eqb_eq in Hid. now rewrite Hid in H.
Qed.

(** The two invariants together make the identifiers pairwise distinct. *)
Lemma invariants_ids_NoDup l :
  unique_keys l = true ->
  (forall x y, In x l -> In y l -> id x = id y -> same_key x y = true) ->
  NoDup (map id l).
Proof.
  induction l as [|x l IH]; intros Hu Hs; cbn [map]; constructor.
  - intros Hin. apply in_map_iff in Hin as (y & Hid & Hy).
    assert (same_key x y = true)
      by (apply Hs; [now left | now right | congruence]).
    rewrite (unique_keys_head _ _ _ Hu Hy) in H. discriminate.
  - apply IH; [eapply unique_keys_tail; eassumption|].
    intros a b Ha Hb. apply Hs; now right.
Qed.

Lemma emitted_variant_id all_items it e :
  In e (emitted all_items it) -> variant_id e = id it.
Proof.
  unfold emitted.
  destruct (base_key it) as [[bn bv]|]; [|contradiction].
  destruct (find_base all_items bn bv); [|contradiction].
  now intros [<-|[]].
Qed.

Lemma count_aliases_app vid bid l1 l2 :
  count_aliases vid bid (l1 ++ l2)%list
  = count_aliases vid bid l1 + count_aliases vid bid l2.
Proof. unfold count_aliases. now rewrite filter_app, length_app. Qed.

Lemma count_aliases_emitted_other all_items it vid bid :
  id it <> vid -> count_aliases vid bid (emitted all_items it) = 0.
Proof.
  intros Hne. unfold count_aliases.
  destruct (emitted all_items it) as [|e l] eqn:E; [reflexivity|].
  assert (Hl : l = []).
  { unfold emitted in E. destruct (base_key it) as [[bn bv]|]; [|discriminate].
    destruct (find_base all_items bn bv); [|discriminate]. congruence. }
  subst l. assert (Hv : variant_id e = id it).
  { apply (emitted_variant_id all_items). rewrite E. now left. }
  cbn [filter]. unfold maps_to.
  destruct (id_eqb (variant_id e) vid) eqn:Ev; [|reflexivity].
  apply id_eqb_eq in Ev. congruence.
Qed.

Lemma count_aliases_absent all_items items vid bid :
  ~ In vid (map id items) ->
  count_aliases vid bid (aliases all_items items) = 0.
Proof.
  unfold aliases. induction items as [|x items IH]; intros Hn; [reflexivity|].
  cbn [flat_map]. rewrite count_aliases_app.
  rewrite count_aliases_emitted_other, IH; [reflexivity | |];
    intros H; apply Hn; cbn [map]; [now right | now left].
Qed.

(** With pairwise distinct identifiers, the entries that map the identifier
    of [it] are the ones emitted for [it] itself. *)
Lemma count_aliases_own all_items items it bid :
  NoDup (map id items) -> In it items ->
  count_aliases (id it) bid (aliases all_items items)
  = count_aliases (id it) bid (emitted all_items it).
Proof.
  unfold aliases.
  induction items as [|x items IH]; intros Hnd Hin; [contradiction|].
  cbn [map] in Hnd. apply NoDup_cons_iff in Hnd as [Hx Hnd].
  cbn [flat_map]. rewrite count_aliases_app.
  destruct Hin as [->|Hin].
  - fold (aliases all_items items).
    rewrite (count_aliases_absent _ _ _ _ Hx). lia.
  - rewrite count_aliases_emitted_other, IH; auto.
    intros Heq. apply Hx. rewrite Heq. now apply in_map.
Qed.

End InvariantFacts.

(** ** The classification rules *)

Module RuleFacts.
Import PyStr PyStrFacts Re ReFacts Fetcher Resolver Mapping Samples.
Import CatalogFacts OutputFacts InvariantFacts.

(** Splits [existsb f [a; b; ...] = true] into its cases. *)
Ltac existsb_cases H :=
  cbn [existsb] in H;
  repeat (apply orb_true_iff in H; destruct H as [H|H]);
  try discriminate H.

Lemma base_key_locked it :
  version it = "Locked" -> base_key it = Some (name it, "Normal").
Proof. unfold base_key. now intros ->. Qed.

Lemma version_not_locked it :
  version it <> "Locked" -> (version it =? "Locked") = false.
Proof. intros H. now apply String.eqb_neq. Qed.

(** A name of the enumerated form is matched by the pattern, and group 1
    is the suffix [" (i)"] when the name carries it. *)
Lemma slayer_helm_match_plain it :
  spec_slayer_name "" it = true ->
  re_match slayer_helm_re (name it) = Some None.
Proof.
  unfold spec_slayer_name, SLAYER_PREFIXES. intros H.
  existsb_cases H; apply String.eqb_eq in H; rewrite H; reflexivity.
Qed.

Lemma slayer_helm_match_imbued it :
  spec_slayer_name " (i)" it = true ->
  re_match slayer_helm_re (name it) = Some (Some " (i)").
Proof.
  unfold spec_slayer_name, SLAYER_PREFIXES. intros H.
  existsb_cases H; apply String.eqb_eq in H; rewrite H; reflexivity.
Qed.

Lemma base_key_slayer it sfx :
  version it <> "Locked" ->
  sfx = "" \/ sfx = " (i)" ->
  spec_slayer_name sfx it = true ->
  base_key it = Some ("Slayer helmet" ++ sfx, "").
Proof.
  intros Hv Hs Hn. unfold base_key. rewrite (version_not_locked _ Hv).
  destruct Hs as [-> | ->].
  - now rewrite (slayer_helm_match_plain _ Hn).
  - now rewrite (slayer_helm_match_imbued _ Hn).
Qed.

Lemma base_key_minigame it :
  spec_minigame it = true ->
  re_match slayer_helm_re (name it) = None ->
  base_key it = Some (name it, "Nightmare Zone").
Proof.
  unfold spec_minigame, MINIGAME_TOKENS, base_key. intros H ->.
  existsb_cases H; apply String.eqb_eq in H; rewrite H; reflexivity.
Qed.

Lemma base_key_degraded it :
  spec_degraded it = true ->
  re_match slayer_helm_re (name it) = None ->
  base_key it = Some (name it, "Undamaged").
Proof.
  unfold spec_degraded, DEGRADED_TOKENS, base_key. intros H ->.
  existsb_cases H; apply String.eqb_eq in H; rewrite H; reflexivity.
Qed.

(** What the slayer-helmet pattern matches: one of the ten prefixes, then
    " slayer helmet", then the optional suffix (captured by group 1), then
    nothing or one line feed. *)
Lemma slayer_helm_match_inv n g :
  re_match slayer_helm_re n = Some g ->
  exists p sfx e,
    In p SLAYER_PREFIXES /\
    (sfx = "" /\ g = None \/ sfx = " (i)" /\ g = Some " (i)") /\
    (e = "" \/ e = nl) /\
    n = p ++ " slayer helmet" ++ sfx ++ e.
Proof.
  unfold re_match, slayer_helm_re.
  rewrite rmatch_Cat, rmatch_Bol, rmatch_Cat. intros H.
  apply rmatch_alt_of in H as (p & s1 & Hp & -> & H).
  rewrite rmatch_Cat in H. apply rmatch_Lit in H as (s2 & -> & H).
  rewrite rmatch_Cat in H. apply rmatch_Opt in H as [H|H].
  - rewrite rmatch_Group in H. apply rmatch_Lit in H as (s3 & -> & H).
    apply rmatch_Eol in H as [He H]. injection H as <-.
    exists p, " (i)", s3. split; [exact Hp|]. split; [|auto].
    right. split; [reflexivity|]. f_equal.
    rewrite Nat.add_comm, Nat.add_sub. exact (substring_prefix " (i)" s3).
  - apply rmatch_Eol in H as [He H]. injection H as <-.
    exists p, "", s2. auto.
Qed.




(** A classified record whose base key occurs in the catalog is aliased to
    the first record with that key. *)
Lemma classified_alias all_items it bn bv base :
  In it all_items ->
  base_key it = Some (bn, bv) ->
  In base all_items -> name base = bn -> version base = bv ->
  exists b, find_base all_items bn bv = Some b /\
            emitted all_items it = [alias_for it b] /\
            In (alias_for it b) (aliases all_items all_items) /\
            (unique_keys all_items = true -> b = base).
Proof.
  intros Hit Hk Hb Hn Hv.
  destruct (find_base_exists all_items bn bv base Hb Hn Hv) as [b Hf].
  exists b. split; [exact Hf|].
  assert (He : emitted all_items it = [alias_for it b])
    by (eapply emitted_found; eassumption).
  split; [exact He|]. split.
  - apply (emitted_in_aliases _ _ it); [exact Hit|]. rewrite He. now left.
  - intros Hu. rewrite (unique_keys_find_base _ base bn bv Hu Hb Hn Hv) in Hf.
    congruence.
Qed.

End RuleFacts.

(** ** What the loop writes for a record that a branch takes *)

Module WriteFacts.
Import PyStr PyStrFacts Re ReFacts Fetcher Resolver Mapping Notions Samples.
Import CatalogFacts OutputFacts InvariantFacts RuleFacts.

(** A record that a branch takes, with a base found: the loop body appends
    the line of the entry. *)
Lemma main_step_found all_items it bn bv b text :
  base_key it = Some (bn, bv) ->
  find_base all_items bn bv = Some b ->
  main_step all_items it text = text ++ entry_line (alias_for it b).
Proof.
  intros Hk Hf. rewrite main_step_base_key, Hk.
  now apply handle_base_variant_found.
Qed.

(** The record found by the lookup is the first one with the key. *)
Lemma find_base_first all_items bn bv b :
  find_base all_items bn bv = Some b ->
  exists before after,
    all_items = (before ++ b :: after)%list /\
    is_base bn bv b = true /\
    forall x, In x before -> is_base bn bv x = false.
Proof.
  unfold find_base.
  induction all_items as [|x l IH]; cbn [find]; [discriminate|].
  destruct (is_base bn bv x) eqn:E.
  - intros [= ->]. exists [], l. repeat split; [exact E | contradiction].
  - intros H. destruct (IH H) as (before & after & -> & Hb & Hbefore).
    exists (x :: before), after. repeat split; [exact Hb|].
    intros y [<-|Hy]; auto.
Qed.

(** The text of [main] around the entry emitted for one item. *)
Lemma main_writes_at wiki_data l1 it l2 e :
  all_items_of wiki_data = (l1 ++ it :: l2)%list ->
  emitted (all_items_of wiki_data) it = [e] ->
  alias_mapping wiki_data
  = (aliases (all_items_of wiki_data) l1
     ++ e :: aliases (all_items_of wiki_data) l2)%list /\
  main wiki_data
  = data ++ concat_all (map entry_line (aliases (all_items_of wiki_data) l1))
    ++ entry_line e
    ++ concat_all (map entry_line (aliases (all_items_of wiki_data) l2))
    ++ (nl ++ "}").
Proof.
  intros Hcat He.
  assert (Hmap : alias_mapping wiki_data
                 = (aliases (all_items_of wiki_data) l1
                    ++ e :: aliases (all_items_of wiki_data) l2)%list).
  { unfold alias_mapping. rewrite Hcat at 2. unfold aliases.
    rewrite flat_map_app. cbn [flat_map]. now rewrite He. }
  split; [exact Hmap|].
  rewrite main_serialized, Hmap, map_app, concat_all_app.
  cbn [map concat_all]. now rewrite !append_assoc.
Qed.

Lemma main_writes_emitted wiki_data it e :
  In it (all_items_of wiki_data) ->
  emitted (all_items_of wiki_data) it = [e] ->
  exists written_before written_after,
    alias_mapping wiki_data = (written_before ++ e :: written_after)%list /\
    main wiki_data
    = data ++ concat_all (map entry_line written_before)
      ++ entry_line e
      ++ concat_all (map entry_line written_after)
      ++ (nl ++ "}").
Proof.
  intros Hit He. apply in_split in Hit as (l1 & l2 & Hcat).
  destruct (main_writes_at wiki_data l1 it l2 e Hcat He) as [Hmap Hmain].
  now exists (aliases (all_items_of wiki_data) l1),
             (aliases (all_items_of wiki_data) l2).
Qed.

(** A record that a branch takes and whose base key occurs in the catalog:
    the first record [b] with that key is the base, the loop body appends
    the line of the entry, and that line is in the text written. *)
Lemma classified_written wiki_data it bn bv base :
  In it (all_items_of wiki_data) ->
  base_key it = Some (bn, bv) ->
  In base (all_items_of wiki_data) -> name base = bn -> version base = bv ->
  exists before b after,
    all_items_of wiki_data = (before ++ b :: after)%list /\
    is_base bn bv b = true /\
    (forall x, In x before -> is_base bn bv x = false) /\
    (unique_keys (all_items_of wiki_data) = true -> b = base) /\
    (forall text,
        main_step (all_items_of wiki_data) it text
        = text ++ entry_line (alias_for it b)) /\
    In (alias_for it b) (alias_mapping wiki_data) /\
    exists written_before written_after,
      main wiki_data
      = data ++ concat_all (map entry_line written_before)
        ++ entry_line (alias_for it b)
        ++ concat_all (map entry_line written_after)
        ++ (nl ++ "}").
Proof.
  intros Hit Hk Hb Hn Hv.
  destruct (classified_alias _ it bn bv base Hit Hk Hb Hn Hv)
    as (b & Hf & He & Hin & Hu).
  destruct (find_base_first _ _ _ _ Hf) as (before & after & Hcat & Hbb & Hfirst).
  exists before, b, after.
  split; [exact Hcat|]. split; [exact Hbb|]. split; [exact Hfirst|].
  split; [exact Hu|].
  split; [intros text; now apply (main_step_found _ _ bn bv)|].
  split; [exact Hin|].
  destruct (main_writes_emitted wiki_data it _ Hit He) as (wb & wa & _ & Hmain).
  now exists wb, wa.
Qed.

(** A name that is neither a cosmetic slayer-helmet name nor such a name
    followed by a line feed is not matched by the pattern. *)
Lemma other_name_no_match it :
  spec_slayer it = false ->
  spec_slayer_then_newline it = false ->
  re_match slayer_helm_re (name it) = None.
Proof.
  intros Hs Hn. apply orb_false_iff in Hs as [Hs0 Hs1].
  destruct (re_match slayer_helm_re (name it)) as [g|] eqn:E; [|reflexivity].
  exfalso.
  apply slayer_helm_match_inv in E as (p & sfx & e & Hp & Hsfx & He & Hname).
  destruct He as [-> | ->].
  - assert (Hx : spec_slayer_name sfx it = true).
    { unfold spec_slayer_name. apply existsb_exists. exists p.
      split; [exact Hp|]. apply String.eqb_eq.
      now rewrite Hname, append_empty_r. }
    destruct Hsfx as [[-> _] | [-> _]]; congruence.
  - assert (Hx : spec_slayer_then_newline it = true); [|congruence].
    unfold spec_slayer_then_newline. apply existsb_exists. exists p.
    split; [exact Hp|]. apply orb_true_iff.
    destruct Hsfx as [[-> _] | [-> _]]; [left | right];
      apply String.eqb_eq; exact Hname.
Qed.

Lemma carriers_app vid l1 l2 :
  carriers vid (l1 ++ l2) = (carriers vid l1 ++ carriers vid l2)%list.
Proof. apply filter_app. Qed.

Lemma carriers_nil_absent vid l : carriers vid l = [] -> ~ In vid (map id l).
Proof.
  unfold carriers. intros H Hin. apply in_map_iff in Hin as (x & Hx & Hxl).
  assert (Hf : In x (filter (fun y => id_eqb (id y) vid) l)).
  { apply filter_In. split; [exact Hxl|]. now apply id_eqb_eq. }
  rewrite H in Hf. contradiction.
Qed.

Lemma carriers_absent_nil vid l : ~ In vid (map id l) -> carriers vid l = [].
Proof.
  unfold carriers. induction l as [|y l IH]; intros H; [reflexivity|].
  cbn [filter]. destruct (id_eqb (id y) vid) eqn:E.
  - exfalso. apply H. apply id_eqb_eq in E. rewrite <- E. now left.
  - apply IH. intros Hin. apply H. now right.
Qed.

(** When [it] is the only carrier of its identifier, the catalog splits
    around it into two parts without that identifier. *)
Lemma carriers_single l it :
  carriers (id it) l = [it] ->
  exists l1 l2,
    l = (l1 ++ it :: l2)%list /\
    ~ In (id it) (map id l1) /\ ~ In (id it) (map id l2).
Proof.
  intros H.
  assert (Hin : In it l).
  { assert (In it (carriers (id it) l)) by (rewrite H; now left).
    unfold carriers in H0. now apply filter_In in H0. }
  apply in_split in Hin as (l1 & l2 & ->).
  exists l1, l2. split; [reflexivity|].
  rewrite carriers_app in H. unfold carriers at 2 in H. cbn [filter] in H.
  rewrite id_eqb_refl in H.
  fold (carriers (id it) l2) in H.
  destruct (carriers (id it) l1) as [|x c1] eqn:E1.
  - cbn [app] in H. injection H as H.
    split; apply carriers_nil_absent; assumption.
  - cbn [app] in H. injection H as _ H.
    destruct c1; discriminate.
Qed.

(** The invariants of the data model make every item the only carrier of
    its identifier. *)
Lemma invariants_carriers l it :
  catalog_invariants l = true -> In it l -> carriers (id it) l = [it].
Proof.
  intros Hinv Hit. unfold catalog_invariants in Hinv.
  apply andb_true_iff in Hinv as [Hu Hs].
  pose proof (invariants_ids_NoDup l Hu (ids_not_shared_spec l Hs)) as Hnd.
  clear Hu Hs. unfold carriers.
  induction l as [|x l IH]; [contradiction|].
  cbn [map] in Hnd. apply NoDup_cons_iff in Hnd as [Hx Hnd].
  cbn [filter]. destruct Hit as [->|Hit].
  - rewrite id_eqb_refl. f_equal. now apply carriers_absent_nil.
  - destruct (id_eqb (id x) (id it)) eqn:E.
    + exfalso. apply Hx. apply id_eqb_eq in E. rewrite E. now apply in_map.
    + now apply IH.
Qed.

End WriteFacts.

(** ** The four rules on the output *)

Module Rules.
Import PyStr PyStrFacts Re ReFacts Fetcher Resolver Mapping Notions Samples.
Import CatalogFacts OutputFacts InvariantFacts RuleFacts WriteFacts.

(** C3 (as amended): for every catalog record with version "Locked" that
    is the only item of the catalog carrying its identifier, and every
    record of the same name with version "Normal", all such records
    carrying one identifier: the loop body appends the line of the alias
    entry from the Locked record to the Normal record, the text written by
    [main] holds that line, and exactly one entry of the output maps the
    identifier of the former to the identifier of the latter (none before
    that line, none after it).  Both conditions hold on a catalog that
    meets the invariants of the data model. *)
Theorem locked_alias_exactly_once :
  forall wiki_data locked normal,
    In locked (all_items_of wiki_data) ->
    version locked = "Locked" ->
    In normal (all_items_of wiki_data) ->
    name normal = name locked ->
    version normal = "Normal" ->
    carriers (id locked) (all_items_of wiki_data) = [locked] ->
    (forall x, In x (all_items_of wiki_data) ->
               name x = name locked -> version x = "Normal" ->
               id x = id normal) ->
    (forall text,
        main_step (all_items_of wiki_data) locked text
        = text ++ entry_line (alias_for locked normal)) /\
    In (alias_for locked normal) (alias_mapping wiki_data) /\
    count_aliases (id locked) (id normal) (alias_mapping wiki_data) = 1 /\
    exists written_before written_after,
      alias_mapping wiki_data
      = (written_before ++ alias_for locked normal :: written_after)%list /\
      count_aliases (id locked) (id normal) written_before = 0 /\
      count_aliases (id locked) (id normal) written_after = 0 /\
      main wiki_data
      = data ++ concat_all (map entry_line written_before)
        ++ entry_line (alias_for locked normal)
        ++ concat_all (map entry_line written_after)
        ++ (nl ++ "}").
Proof.
  intros wiki_data locked normal Hl Hvl Hn Hnn Hvn Hcar Hsame.
  destruct (find_base_exists _ (name locked) "Normal" normal Hn Hnn Hvn)
    as [b Hf].
  pose proof (find_base_Some _ _ _ _ Hf) as (Hb & Hbn & Hbv).
  assert (Hent : alias_for locked b = alias_for locked normal).
  { unfold alias_for. now rewrite (Hsame b Hb Hbn Hbv). }
  pose proof (emitted_found _ _ _ _ _ (base_key_locked _ Hvl) Hf) as He.
  rewrite Hent in He.
  destruct (carriers_single _ _ Hcar) as (l1 & l2 & Hcat & H1 & H2).
  destruct (main_writes_at wiki_data l1 locked l2 _ Hcat He) as [Hmap Hmain].
  pose proof (count_aliases_absent (all_items_of wiki_data) l1 _ (id normal) H1)
    as Hc1.
  pose proof (count_aliases_absent (all_items_of wiki_data) l2 _ (id normal) H2)
    as Hc2.
  assert (Hone : count_aliases (id locked) (id normal) [alias_for locked normal] = 1).
  { unfold count_aliases, maps_to. cbn [filter alias_for variant_id base_id].
    now rewrite !id_eqb_refl. }
  split.
  { intros text.
    rewrite (main_step_found _ _ _ _ _ text (base_key_locked _ Hvl) Hf).
    now rewrite Hent. }
  split; [rewrite Hmap; apply in_or_app; right; now left|].
  split.
  { rewrite Hmap.
    change (alias_for locked normal :: aliases (all_items_of wiki_data) l2)
      with ([alias_for locked normal] ++ aliases (all_items_of wiki_data) l2)%list.
    rewrite !count_aliases_app, Hc1, Hc2, Hone. reflexivity. }
  exists (aliases (all_items_of wiki_data) l1),
         (aliases (all_items_of wiki_data) l2).
  auto.
Qed.

Lemma locked_alias_exactly_once_witness :
  In whip_locked (all_items_of whip) /\
  In whip_normal (all_items_of whip) /\
  carriers (id whip_locked) (all_items_of whip) = [whip_locked] /\
  (forall text,
      main_step (all_items_of whip) whip_locked text
      = text ++ entry_line (alias_for whip_locked whip_normal)) /\
  count_aliases (Some 21371%Z) (Some 4151%Z) (alias_mapping whip) = 1.
Proof.
  assert (Hl : In whip_locked (all_items_of whip)) by (left; reflexivity).
  assert (Hn : In whip_normal (all_items_of whip)) by (right; left; reflexivity).
  assert (Hsame : forall x, In x (all_items_of whip) ->
                    name x = name whip_locked -> version x = "Normal" ->
                    id x = id whip_normal).
  { intros x [<-|[<-|[]]] _ Hv; [discriminate | reflexivity]. }
  split; [exact Hl|]. split; [exact Hn|]. split; [reflexivity|].
  destruct (locked_alias_exactly_once whip whip_locked whip_normal
              Hl eq_refl Hn eq_refl eq_refl eq_refl Hsame)
    as (Hstep & _ & Hcount & _).
  split; [exact Hstep | exact Hcount].
Defined.

(** C3 (as stated, refuted): with two "Normal" records of one name, the
    Locked record is aliased to the first of them only, so no entry maps it
    to the second; and with an identifier shared by a second Locked record
    (the names differ, so the pairs are unique), two entries map the same
    pair of identifiers. *)
Lemma locked_alias_not_exactly_once :
  (In zamorak_locked (all_items_of duplicated_base) /\
   version zamorak_locked = "Locked" /\
   In zamorak_normal_second (all_items_of duplicated_base) /\
   name zamorak_normal_second = name zamorak_locked /\
   version zamorak_normal_second = "Normal" /\
   count_aliases (id zamorak_locked) (id zamorak_normal_second)
                 (alias_mapping duplicated_base) = 0) /\
  (In whip_locked (all_items_of shared_ids) /\
   version whip_locked = "Locked" /\
   In whip_normal (all_items_of shared_ids) /\
   name whip_normal = name whip_locked /\
   version whip_normal = "Normal" /\
   unique_keys (all_items_of shared_ids) = true /\
   count_aliases (id whip_locked) (id whip_normal)
                 (alias_mapping shared_ids) = 2).
Proof.
  split.
  - split; [right; left; reflexivity|]. split; [reflexivity|].
    split; [right; right; right; left; reflexivity|].
    repeat split; reflexivity.
  - split; [right; right; left; reflexivity|]. split; [reflexivity|].
    split; [right; right; right; left; reflexivity|].
    repeat split; reflexivity.
Qed.

(** C4 (as amended): for every catalog record whose version is not
    "Locked" and whose name is one of the ten prefixes followed by
    " slayer helmet" and by the suffix [sfx], empty or " (i)", if the
    catalog holds a record named "Slayer helmet" followed by [sfx] with
    empty version, then, [b] being the first such record of the catalog
    (that very record when (name, version) pairs are unique), the loop body
    appends the line of the alias entry from the record to [b], and the
    text written by [main] holds that line. *)
Theorem slayer_helmet_alias_unless_locked :
  forall wiki_data it base sfx,
    In it (all_items_of wiki_data) ->
    version it <> "Locked" ->
    sfx = "" \/ sfx = " (i)" ->
    spec_slayer_name sfx it = true ->
    In base (all_items_of wiki_data) ->
    name base = "Slayer helmet" ++ sfx ->
    version base = "" ->
    exists before b after,
      all_items_of wiki_data = (before ++ b :: after)%list /\
      is_base ("Slayer helmet" ++ sfx) "" b = true /\
      (forall x, In x before -> is_base ("Slayer helmet" ++ sfx) "" x = false) /\
      (unique_keys (all_items_of wiki_data) = true -> b = base) /\
      (forall text,
          main_step (all_items_of wiki_data) it text
          = text ++ entry_line (alias_for it b)) /\
      In (alias_for it b) (alias_mapping wiki_data) /\
      exists written_before written_after,
        main wiki_data
        = data ++ concat_all (map entry_line written_before)
          ++ entry_line (alias_for it b)
          ++ concat_all (map entry_line written_after)
          ++ (nl ++ "}").
Proof.
  intros wiki_data it base sfx Hit Hv Hs Hn Hb Hbn Hbv.
  exact (classified_written wiki_data it _ _ base
           Hit (base_key_slayer _ _ Hv Hs Hn) Hb Hbn Hbv).
Qed.

Lemma slayer_helmet_alias_unless_locked_witness :
  In twisted_helm_i (all_items_of twisted_helm) /\
  spec_slayer_name " (i)" twisted_helm_i = true /\
  In plain_helm_i (all_items_of twisted_helm) /\
  unique_keys (all_items_of twisted_helm) = true /\
  (forall text,
      main_step (all_items_of twisted_helm) twisted_helm_i text
      = text ++ entry_line (alias_for twisted_helm_i plain_helm_i)) /\
  In (alias_for twisted_helm_i plain_helm_i) (alias_mapping twisted_helm).
Proof.
  assert (Hi : In twisted_helm_i (all_items_of twisted_helm))
    by (right; left; reflexivity).
  assert (Hb : In plain_helm_i (all_items_of twisted_helm))
    by (left; reflexivity).
  split; [exact Hi|]. split; [reflexivity|]. split; [exact Hb|].
  split; [reflexivity|].
  destruct (slayer_helmet_alias_unless_locked
              twisted_helm twisted_helm_i plain_helm_i " (i)"
              Hi ltac:(discriminate) (or_intror eq_refl) eq_refl
              Hb eq_refl eq_refl)
    as (before & b & after & _ & _ & _ & Hu & Hstep & Hin & _).
  rewrite (Hu eq_refl) in Hstep, Hin. split; [exact Hstep | exact Hin].
Defined.

(** C4 (as stated, refuted): a record named "Black slayer helmet" with
    version "Locked" is taken by the Locked branch, which looks for the same
    name with version "Normal"; the catalog holds "Slayer helmet" with empty
    version, yet no alias entry is written. *)
Lemma locked_slayer_helmet_not_aliased :
  In black_helm_locked (all_items_of locked_helm) /\
  spec_slayer_name "" black_helm_locked = true /\
  In plain_helm (all_items_of locked_helm) /\
  name plain_helm = "Slayer helmet" /\ version plain_helm = "" /\
  catalog_invariants (all_items_of locked_helm) = true /\
  ~ In (alias_for black_helm_locked plain_helm) (alias_mapping locked_helm) /\
  alias_mapping locked_helm = [] /\
  main locked_helm = data ++ nl ++ "}".
Proof.
  split; [left; reflexivity|]. split; [reflexivity|].
  split; [right; left; reflexivity|].
  repeat split; try reflexivity.
  intros H. exact H.
Qed.

(** C5 (as amended): for every catalog record whose version is exactly
    "25", "50", "75" or "100" and whose name is neither a cosmetic
    slayer-helmet name nor such a name followed by a line feed, if the
    catalog holds a record of the same name with version "Undamaged",
    then, [b] being the first such record of the catalog (that very record
    when (name, version) pairs are unique), the loop body appends the line
    of the alias entry from the record to [b], and the text written by
    [main] holds that line. *)
Theorem degraded_alias_unless_slayer_helmet :
  forall wiki_data it base,
    In it (all_items_of wiki_data) ->
    spec_degraded it = true ->
    spec_slayer it = false ->
    spec_slayer_then_newline it = false ->
    In base (all_items_of wiki_data) ->
    name base = name it ->
    version base = "Undamaged" ->
    exists before b after,
      all_items_of wiki_data = (before ++ b :: after)%list /\
      is_base (name it) "Undamaged" b = true /\
      (forall x, In x before -> is_base (name it) "Undamaged" x = false) /\
      (unique_keys (all_items_of wiki_data) = true -> b = base) /\
      (forall text,
          main_step (all_items_of wiki_data) it text
          = text ++ entry_line (alias_for it b)) /\
      In (alias_for it b) (alias_mapping wiki_data) /\
      exists written_before written_after,
        main wiki_data
        = data ++ concat_all (map entry_line written_before)
          ++ entry_line (alias_for it b)
          ++ concat_all (map entry_line written_after)
          ++ (nl ++ "}").
Proof.
  intros wiki_data it base Hit Hd Hs Hnl Hb Hbn Hbv.
  exact (classified_written wiki_data it _ _ base
           Hit (base_key_degraded _ Hd (other_name_no_match _ Hs Hnl))
           Hb Hbn Hbv).
Qed.

Lemma degraded_alias_unless_slayer_helmet_witness :
  In dharok_25 (all_items_of barrows) /\
  spec_degraded dharok_25 = true /\
  spec_slayer dharok_25 = false /\
  spec_slayer_then_newline dharok_25 = false /\
  In dharok_undamaged (all_items_of barrows) /\
  unique_keys (all_items_of barrows) = true /\
  (forall text,
      main_step (all_items_of barrows) dharok_25 text
      = text ++ entry_line (alias_for dharok_25 dharok_undamaged)) /\
  In (alias_for dharok_25 dharok_undamaged) (alias_mapping barrows).
Proof.
  assert (Hi : In dharok_25 (all_items_of barrows))
    by (right; right; left; reflexivity).
  assert (Hb : In dharok_undamaged (all_items_of barrows))
    by (left; reflexivity).
  split; [exact Hi|]. split; [reflexivity|]. split; [reflexivity|].
  split; [reflexivity|]. split; [exact Hb|]. split; [reflexivity|].
  destruct (degraded_alias_unless_slayer_helmet
              barrows dharok_25 dharok_undamaged
              Hi eq_refl eq_refl eq_refl Hb eq_refl eq_refl)
    as (before & b & after & _ & _ & _ & Hu & Hstep & Hin & _).
  rewrite (Hu eq_refl) in Hstep, Hin. split; [exact Hstep | exact Hin].
Defined.

(** C5 (as stated, refuted): a record named "Black slayer helmet" with
    version "25" is taken by the slayer-helmet branch, which looks for
    "Slayer helmet" with empty version; the catalog holds the same name with
    version "Undamaged", yet no alias entry is written. *)
Lemma degraded_slayer_helmet_not_aliased :
  In black_helm_25 (all_items_of degraded_helm) /\
  spec_degraded black_helm_25 = true /\
  In black_helm_undamaged (all_items_of degraded_helm) /\
  name black_helm_undamaged = name black_helm_25 /\
  version black_helm_undamaged = "Undamaged" /\
  catalog_invariants (all_items_of degraded_helm) = true /\
  ~ In (alias_for black_helm_25 black_helm_undamaged) (alias_mapping degraded_helm) /\
  alias_mapping degraded_helm = [] /\
  main degraded_helm = data ++ nl ++ "}".
Proof.
  split; [left; reflexivity|]. split; [reflexivity|].
  split; [right; left; reflexivity|].
  repeat split; try reflexivity.
  intros H. exact H.
Qed.

(** C6 (as amended): for every catalog record whose version is exactly
    "Soul Wars" or "Emir's Arena" and whose name is neither a cosmetic
    slayer-helmet name nor such a name followed by a line feed, if the
    catalog holds a record of the same name with version "Nightmare Zone",
    then, [b] being the first such record of the catalog (that very record
    when (name, version) pairs are unique), the loop body appends the line
    of the alias entry from the record to [b], and the text written by
    [main] holds that line. *)
Theorem minigame_alias_unless_slayer_helmet :
  forall wiki_data it base,
    In it (all_items_of wiki_data) ->
    spec_minigame it = true ->
    spec_slayer it = false ->
    spec_slayer_then_newline it = false ->
    In base (all_items_of wiki_data) ->
    name base = name it ->
    version base = "Nightmare Zone" ->
    exists before b after,
      all_items_of wiki_data = (before ++ b :: after)%list /\
      is_base (name it) "Nightmare Zone" b = true /\
      (forall x, In x before -> is_base (name it) "Nightmare Zone" x = false) /\
      (unique_keys (all_items_of wiki_data) = true -> b = base) /\
      (forall text,
          main_step (all_items_of wiki_data) it text
          = text ++ entry_line (alias_for it b)) /\
      In (alias_for it b) (alias_mapping wiki_data) /\
      exists written_before written_after,
        main wiki_data
        = data ++ concat_all (map entry_line written_before)
          ++ entry_line (alias_for it b)
          ++ concat_all (map entry_line written_after)
          ++ (nl ++ "}").
Proof.
  intros wiki_data it base Hit Hm Hs Hnl Hb Hbn Hbv.
  exact (classified_written wiki_data it _ _ base
           Hit (base_key_minigame _ Hm (other_name_no_match _ Hs Hnl))
           Hb Hbn Hbv).
Qed.

Lemma minigame_alias_unless_slayer_helmet_witness :
  In cape_emir (all_items_of minigame_cape) /\
  spec_minigame cape_emir = true /\
  spec_slayer cape_emir = false /\
  spec_slayer_then_newline cape_emir = false /\
  In cape_nmz (all_items_of minigame_cape) /\
  unique_keys (all_items_of minigame_cape) = true /\
  (forall text,
      main_step (all_items_of minigame_cape) cape_emir text
      = text ++ entry_line (alias_for cape_emir cape_nmz)) /\
  In (alias_for cape_emir cape_nmz) (alias_mapping minigame_cape).
Proof.
  assert (Hi : In cape_emir (all_items_of minigame_cape))
    by (right; left; reflexivity).
  assert (Hb : In cape_nmz (all_items_of minigame_cape))
    by (left; reflexivity).
  split; [exact Hi|]. split; [reflexivity|]. split; [reflexivity|].
  split; [reflexivity|]. split; [exact Hb|]. split; [reflexivity|].
  destruct (minigame_alias_unless_slayer_helmet
              minigame_cape cape_emir cape_nmz
              Hi eq_refl eq_refl eq_refl Hb eq_refl eq_refl)
    as (before & b & after & _ & _ & _ & Hu & Hstep & Hin & _).
  rewrite (Hu eq_refl) in Hstep, Hin. split; [exact Hstep | exact Hin].
Defined.

(** C6 (as stated, refuted): a record named "Red slayer helmet" with version
    "Soul Wars" is taken by the slayer-helmet branch; the catalog holds the
    same name with version "Nightmare Zone", yet no alias entry is
    written. *)
Lemma minigame_slayer_helmet_not_aliased :
  In red_helm_soul_wars (all_items_of minigame_helm) /\
  spec_minigame red_helm_soul_wars = true /\
  In red_helm_nmz (all_items_of minigame_helm) /\
  name red_helm_nmz = name red_helm_soul_wars /\
  version red_helm_nmz = "Nightmare Zone" /\
  catalog_invariants (all_items_of minigame_helm) = true /\
  ~ In (alias_for red_helm_soul_wars red_helm_nmz) (alias_mapping minigame_helm) /\
  alias_mapping minigame_helm = [] /\
  main minigame_helm = data ++ nl ++ "}".
Proof.
  split; [left; reflexivity|]. split; [reflexivity|].
  split; [right; left; reflexivity|].
  repeat split; try reflexivity.
  intros H. exact H.
Qed.

End Rules.

(** ** Records without alias, base lookup, absent identifiers *)

Module Lookup.
Import PyStr PyStrFacts Re Fetcher Resolver Mapping Notions Samples.
Import CatalogFacts OutputFacts InvariantFacts RuleFacts WriteFacts.

Lemma aliases_app all_items l1 l2 :
  aliases all_items (l1 ++ l2) = (aliases all_items l1 ++ aliases all_items l2)%list.
Proof. apply flat_map_app. Qed.

Lemma main_loop_app all_items l1 l2 data :
  main_loop all_items (l1 ++ l2) data
  = main_loop all_items l2 (main_loop all_items l1 data).
Proof. apply fold_left_app. Qed.

Lemma main_loop_cons all_items it l data :
  main_loop all_items (it :: l) data
  = main_loop all_items l (main_step all_items it data).
Proof. reflexivity. Qed.

(** A record that no branch of the chain takes leaves [data] as it is. *)
Lemma unclassified_emits_nothing all_items it :
  base_key it = None ->
  emitted all_items it = [] /\
  forall data, main_step all_items it data = data.
Proof.
  intros Hk. split; [unfold emitted; now rewrite Hk|].
  intros data. now rewrite main_step_base_key, Hk.
Qed.



Lemma find_first {A : Type} (p : A -> bool) (l : list A) (b : A) :
  find p l = Some b <->
  exists before after,
    l = (before ++ b :: after)%list /\ p b = true /\
    forall x, In x before -> p x = false.
Proof.
  split.
  - induction l as [|x l IH]; cbn [find]; [discriminate|].
    destruct (p x) eqn:E.
    + intros [= ->]. exists [], l. repeat split; [exact E | contradiction].
    + intros H. destruct (IH H) as (before & after & -> & Hb & Hbefore).
      exists (x :: before), after. repeat split; [exact Hb|].
      intros y [<-|Hy]; auto.
  - intros (before & after & -> & Hb & Hbefore).
    induction before as [|x before IH]; cbn [app find].
    + now rewrite Hb.
    + rewrite (Hbefore x (or_introl eq_refl)).
      apply IH. intros y Hy. apply Hbefore. now right.
Qed.

(** C7: a record that a branch of the chain takes, and whose base key
    (name and version) no record of the catalog has, emits no entry:
    the loop body returns [data] unchanged (the lookup has a default, so
    nothing is raised), and the text written is the one the loop produces
    on the other records of the catalog. *)
Theorem missing_base_is_skipped :
  forall wiki_data before it after bn bv,
    all_items_of wiki_data = (before ++ it :: after)%list ->
    base_key it = Some (bn, bv) ->
    (forall x, In x (all_items_of wiki_data) ->
               ~ (name x = bn /\ version x = bv)) ->
    emitted (all_items_of wiki_data) it = [] /\
    (forall data, main_step (all_items_of wiki_data) it data = data) /\
    alias_mapping wiki_data
    = (aliases (all_items_of wiki_data) before
       ++ aliases (all_items_of wiki_data) after)%list /\
    main wiki_data
    = main_loop (all_items_of wiki_data) (before ++ after) data ++ (nl ++ "}").
Proof.
  intros wiki_data before it after bn bv Hcat Hk Hnone.
  pose proof (find_base_None _ _ _ Hnone) as Hf.
  assert (He : emitted (all_items_of wiki_data) it = [])
    by (eapply emitted_missing; eassumption).
  assert (Hstep : forall data, main_step (all_items_of wiki_data) it data = data).
  { intros d. rewrite main_step_base_key, Hk.
    now apply handle_base_variant_missing. }
  split; [exact He|]. split; [exact Hstep|]. split.
  - unfold alias_mapping. rewrite Hcat at 2.
    rewrite aliases_app. unfold aliases at 2. cbn [flat_map].
    now rewrite He.
  - unfold main. cbv zeta. rewrite Hcat at 2.
    rewrite !main_loop_app, main_loop_cons. now rewrite Hstep.
Qed.

Lemma missing_base_is_skipped_witness :
  all_items_of lone_degraded
  = ([mkItem "Abyssal whip" (Some 4151%Z) ""] ++ dharok_50 :: [])%list /\
  base_key dharok_50 = Some ("Dharok's helm", "Undamaged") /\
  alias_mapping lone_degraded = [] /\
  main lone_degraded = data ++ nl ++ "}".
Proof.
  split; [reflexivity|]. split; [reflexivity|].
  assert (Hnone : forall x, In x (all_items_of lone_degraded) ->
                    ~ (name x = "Dharok's helm" /\ version x = "Undamaged")).
  { intros x [<-|[<-|[]]] [Hn Hv]; discriminate. }
  destruct (missing_base_is_skipped
              lone_degraded [mkItem "Abyssal whip" (Some 4151%Z) ""]
              dharok_50 [] "Dharok's helm" "Undamaged"
              eq_refl eq_refl Hnone)
    as (_ & _ & Hmap & Hmain).
  split; [exact Hmap | exact Hmain].
Defined.




(** The patterns end in [$], which also matches before a final line feed:
    a version that is "25" followed by a line feed is none of the literal
    tokens, yet the degradation branch takes the record and an entry is
    written for it. *)
Example newline_version_aliased_without_rule :
  In dharok_25_nl (all_items_of newline_version) /\
  spec_no_rule dharok_25_nl = true /\
  catalog_invariants (all_items_of newline_version) = true /\
  base_key dharok_25_nl = Some ("Dharok's helm", "Undamaged") /\
  alias_mapping newline_version = [alias_for dharok_25_nl dharok_undamaged] /\
  main newline_version
  = data ++ nl ++ "    4883: 4716, // Dharok's helm#25" ++ nl ++ nl ++ "}".
Proof.
  split; [right; left; reflexivity|].
  repeat split; reflexivity.
Qed.

(** C9: let [b] be the earliest record in fetch order with name [bn] and
    version [bv].  Then [b] is also the first record with that pair in the
    sorted catalog; [handle_base_variant] called with that pair finds [b]
    and appends the line that carries the identifier of [b]; so does the
    loop body for every record whose base key is that pair, and the text
    written by [main] holds that line for every such record of the
    catalog. *)
Theorem base_lookup_takes_first_in_fetch_order :
  forall wiki_data bn bv b fetched_before fetched_after,
    collect_items wiki_data = (fetched_before ++ b :: fetched_after)%list ->
    is_base bn bv b = true ->
    (forall x, In x fetched_before -> is_base bn bv x = false) ->
    find_base (all_items_of wiki_data) bn bv = Some b /\
    (exists before after,
        all_items_of wiki_data = (before ++ b :: after)%list /\
        forall x, In x before -> is_base bn bv x = false) /\
    (forall variant text,
        handle_base_variant (all_items_of wiki_data) variant bn bv text
        = text ++ entry_line (alias_for variant b)) /\
    (forall it text,
        base_key it = Some (bn, bv) ->
        main_step (all_items_of wiki_data) it text
        = text ++ entry_line (alias_for it b)) /\
    (forall it, base_key it = Some (bn, bv) ->
                emitted (all_items_of wiki_data) it = [alias_for it b]) /\
    (forall it e, In it (all_items_of wiki_data) ->
                  base_key it = Some (bn, bv) ->
                  In e (emitted (all_items_of wiki_data) it) ->
                  In e (alias_mapping wiki_data) /\ base_id e = id b) /\
    (forall it, In it (all_items_of wiki_data) ->
                base_key it = Some (bn, bv) ->
                exists written_before written_after,
                  main wiki_data
                  = data ++ concat_all (map entry_line written_before)
                    ++ entry_line (alias_for it b)
                    ++ concat_all (map entry_line written_after)
                    ++ (nl ++ "}")).
Proof.
  intros wiki_data bn bv b fb fa Hcat Hb Hfb.
  assert (Hf : find_base (all_items_of wiki_data) bn bv = Some b).
  { unfold all_items_of. rewrite find_base_sort. unfold find_base.
    apply find_first. now exists fb, fa. }
  split; [exact Hf|]. split.
  { unfold find_base in Hf.
    apply find_first in Hf as (before & after & H1 & _ & H2).
    now exists before, after. }
  split; [intros variant text; now apply handle_base_variant_found|].
  split; [intros it text Hk; now apply (main_step_found _ _ bn bv)|].
  split; [intros it Hk; now apply (emitted_found _ _ bn bv)|].
  split.
  - intros it e Hit Hk He. split.
    + now apply (emitted_in_aliases _ _ it).
    + rewrite (emitted_found _ _ bn bv b Hk Hf) in He.
      now destruct He as [<-|[]].
  - intros it Hit Hk.
    destruct (main_writes_emitted wiki_data it _ Hit
                (emitted_found _ _ bn bv b Hk Hf))
      as (wb & wa & _ & Hmain).
    now exists wb, wa.
Qed.

Lemma base_lookup_takes_first_in_fetch_order_witness :
  collect_items duplicated_base
  = ([zamorak_locked; mkItem "Bandos cape" (Some 30%Z) "Normal"]
     ++ zamorak_normal_first :: [zamorak_normal_second])%list /\
  is_base "Zamorak cape" "Normal" zamorak_normal_second = true /\
  find_base (all_items_of duplicated_base) "Zamorak cape" "Normal"
  = Some zamorak_normal_first /\
  (forall text,
      main_step (all_items_of duplicated_base) zamorak_locked text
      = text ++ entry_line (alias_for zamorak_locked zamorak_normal_first)) /\
  emitted (all_items_of duplicated_base) zamorak_locked
  = [alias_for zamorak_locked zamorak_normal_first].
Proof.
  split; [reflexivity|]. split; [reflexivity|].
  assert (Hbefore : forall x,
             In x [zamorak_locked; mkItem "Bandos cape" (Some 30%Z) "Normal"] ->
             is_base "Zamorak cape" "Normal" x = false).
  { intros x [<-|[<-|[]]]; reflexivity. }
  destruct (base_lookup_takes_first_in_fetch_order
              duplicated_base "Zamorak cape" "Normal" zamorak_normal_first
              [zamorak_locked; mkItem "Bandos cape" (Some 30%Z) "Normal"]
              [zamorak_normal_second] eq_refl eq_refl Hbefore)
    as (Hf & _ & _ & Hstep & He & _).
  split; [exact Hf|].
  split; [intros text; exact (Hstep zamorak_locked text eq_refl)|].
  exact (He zamorak_locked eq_refl).
Defined.

Lemma entry_line_None_variant it base :
  id it = None ->
  entry_line (alias_for it base)
  = nl ++ "    None: " ++ str_opt_int (id base) ++ ", // " ++
    name it ++ "#" ++ version it.
Proof.
  intros H. unfold entry_line, alias_for. cbn [variant_id base_id comment].
  now rewrite H.
Qed.

Lemma entry_line_None_base variant it :
  id it = None ->
  entry_line (alias_for variant it)
  = nl ++ "    " ++ str_opt_int (id variant) ++ ": None, // " ++
    name variant ++ "#" ++ version variant.
Proof.
  intros H. unfold entry_line, alias_for. cbn [variant_id base_id comment].
  now rewrite H.
Qed.

(** C10: a record whose 'Item ID' printout is the empty array is kept in
    the catalog with identifier [None].  When a branch of the chain takes
    that record and the lookup finds a base, the loop body appends a line
    that starts with the word None in place of the identifier, and the
    text written by [main] holds that line; when the lookup made for
    another record selects that record as the base, the line appended and
    written holds the word None as the base identifier. *)
Theorem missing_item_id_is_written_as_None :
  forall wiki_data k po,
    In (k, Some po) wiki_data ->
    po_item_id po = [] ->
    In (item_of k po) (all_items_of wiki_data) /\
    id (item_of k po) = None /\
    (forall all_items bn bv base text,
        find_base all_items bn bv = Some base ->
        handle_base_variant all_items (item_of k po) bn bv text
        = text ++ nl ++ "    None: " ++ str_opt_int (id base) ++ ", // " ++
          name (item_of k po) ++ "#" ++ version (item_of k po)) /\
    (forall all_items variant bn bv text,
        find_base all_items bn bv = Some (item_of k po) ->
        handle_base_variant all_items variant bn bv text
        = text ++ nl ++ "    " ++ str_opt_int (id variant) ++ ": None, // " ++
          name variant ++ "#" ++ version variant) /\
    (forall all_items bn bv base text,
        base_key (item_of k po) = Some (bn, bv) ->
        find_base all_items bn bv = Some base ->
        main_step all_items (item_of k po) text
        = text ++ nl ++ "    None: " ++ str_opt_int (id base) ++ ", // " ++
          name (item_of k po) ++ "#" ++ version (item_of k po)) /\
    (forall all_items variant bn bv text,
        base_key variant = Some (bn, bv) ->
        find_base all_items bn bv = Some (item_of k po) ->
        main_step all_items variant text
        = text ++ nl ++ "    " ++ str_opt_int (id variant) ++ ": None, // " ++
          name variant ++ "#" ++ version variant) /\
    (forall bn bv base,
        base_key (item_of k po) = Some (bn, bv) ->
        find_base (all_items_of wiki_data) bn bv = Some base ->
        exists written_before written_after,
          main wiki_data
          = data ++ concat_all (map entry_line written_before)
            ++ (nl ++ "    None: " ++ str_opt_int (id base) ++ ", // " ++
                name (item_of k po) ++ "#" ++ version (item_of k po))
            ++ concat_all (map entry_line written_after)
            ++ (nl ++ "}")) /\
    (forall variant bn bv,
        In variant (all_items_of wiki_data) ->
        base_key variant = Some (bn, bv) ->
        find_base (all_items_of wiki_data) bn bv = Some (item_of k po) ->
        exists written_before written_after,
          main wiki_data
          = data ++ concat_all (map entry_line written_before)
            ++ (nl ++ "    " ++ str_opt_int (id variant) ++ ": None, // " ++
                name variant ++ "#" ++ version variant)
            ++ concat_all (map entry_line written_after)
            ++ (nl ++ "}")).
Proof.
  intros wiki_data k po Hin Hid.
  assert (Hnone : id (item_of k po) = None)
    by (unfold item_of; cbn [id]; now rewrite Hid).
  assert (Hcat : In (item_of k po) (all_items_of wiki_data))
    by (apply sort_by_name_In; now apply collect_items_keeps).
  split; [exact Hcat|]. split; [exact Hnone|].
  split.
  { intros all_items bn bv base text Hf.
    rewrite (handle_base_variant_found _ _ _ _ _ _ Hf).
    now rewrite (entry_line_None_variant _ base Hnone). }
  split.
  { intros all_items variant bn bv text Hf.
    rewrite (handle_base_variant_found _ _ _ _ _ _ Hf).
    now rewrite (entry_line_None_base variant _ Hnone). }
  split.
  { intros all_items bn bv base text Hk Hf.
    rewrite (main_step_found _ _ _ _ _ text Hk Hf).
    now rewrite (entry_line_None_variant _ base Hnone). }
  split.
  { intros all_items variant bn bv text Hk Hf.
    rewrite (main_step_found _ _ _ _ _ text Hk Hf).
    now rewrite (entry_line_None_base variant _ Hnone). }
  split.
  { intros bn bv base Hk Hf.
    destruct (main_writes_emitted wiki_data _ _ Hcat
                (emitted_found _ _ bn bv base Hk Hf))
      as (wb & wa & _ & Hmain).
    exists wb, wa. now rewrite <- (entry_line_None_variant _ base Hnone). }
  intros variant bn bv Hv Hk Hf.
  destruct (main_writes_emitted wiki_data _ _ Hv
              (emitted_found _ _ bn bv _ Hk Hf))
    as (wb & wa & _ & Hmain).
  exists wb, wa. now rewrite <- (entry_line_None_base variant _ Hnone).
Qed.

Lemma missing_item_id_is_written_as_None_witness :
  In ("Rune pouch#Locked", Some (mkPrintouts [] ["Locked"])) missing_id /\
  In pouch_locked (all_items_of missing_id) /\
  base_key pouch_locked = Some ("Rune pouch", "Normal") /\
  find_base (all_items_of missing_id) "Rune pouch" "Normal" = Some pouch_normal /\
  (forall text,
      main_step (all_items_of missing_id) pouch_locked text
      = text ++ nl ++ "    None: 12791, // Rune pouch#Locked") /\
  main missing_id
  = data ++ nl ++ "    None: 12791, // Rune pouch#Locked" ++ nl ++ "}".
Proof.
  assert (Hin : In ("Rune pouch#Locked", Some (mkPrintouts [] ["Locked"])) missing_id)
    by (left; reflexivity).
  split; [exact Hin|].
  destruct (missing_item_id_is_written_as_None
              missing_id "Rune pouch#Locked" (mkPrintouts [] ["Locked"])
              Hin eq_refl)
    as (Hitem & _ & _ & _ & Hstep & _ & _ & _).
  split; [exact Hitem|]. split; [reflexivity|]. split; [reflexivity|].
  split; [|reflexivity].
  intros text.
  exact (Hstep (all_items_of missing_id) "Rune pouch" "Normal" pouch_normal text
               eq_refl eq_refl).
Defined.

End Lookup.

(** ** Further properties of the fetch loop *)

Module FetchMore.
Import PyStr PyStrFacts Fetcher Resolver Mapping Notions Samples FetcherFacts.

Lemma dict_get_set d k v k' :
  dict_get (dict_set d k v) k'
  = if k =? k' then Some v else dict_get d k'.
Proof.
  unfold dict_get.
  induction d as [|[k0 v0] d IH]; cbn [dict_set find fst snd].
  - destruct (String.eqb_spec k k'); reflexivity.
  - destruct (String.eqb_spec k0 k) as [->|Hne]; cbn [find fst snd].
    + destruct (String.eqb_spec k k'); reflexivity.
    + destruct (String.eqb_spec k0 k') as [->|Hne'].
      * destruct (String.eqb_spec k k'); [congruence | reflexivity].
      * exact IH.
Qed.

Lemma dict_get_None d k : ~ In k (dict_keys d) -> dict_get d k = None.
Proof.
  unfold dict_get, dict_keys. intros H.
  destruct (find (fun kv => fst kv =? k) d) as [kv|] eqn:E; [|reflexivity].
  apply find_some in E as [Hin Hk]. apply String.eqb_eq in Hk.
  exfalso. apply H. rewrite <- Hk. now apply in_map.
Qed.

Lemma dict_union_cons d1 k v d2 :
  dict_union d1 ((k, v) :: d2) = dict_union (dict_set d1 k v) d2.
Proof. reflexivity. Qed.

Lemma dict_keys_set d k v :
  dict_keys (dict_set d k v)
  = if existsb (String.eqb k) (dict_keys d) then dict_keys d
    else (dict_keys d ++ [k])%list.
Proof.
  unfold dict_keys.
  induction d as [|[k0 v0] d IH]; cbn [dict_set map fst existsb]; [reflexivity|].
  rewrite (String.eqb_sym k k0).
  destruct (String.eqb_spec k0 k) as [->|Hne]; cbn [map fst orb]; [reflexivity|].
  rewrite IH. now destruct (existsb (String.eqb k) (map fst d)).
Qed.

Lemma existsb_eqb_false k l : existsb (String.eqb k) l = false -> ~ In k l.
Proof.
  intros H Hin.
  assert (existsb (String.eqb k) l = true)
    by (apply existsb_exists; exists k; split; [exact Hin | apply String.eqb_refl]).
  congruence.
Qed.

Lemma dict_set_NoDup d k v :
  NoDup (dict_keys d) -> NoDup (dict_keys (dict_set d k v)).
Proof.
  intros H. rewrite dict_keys_set.
  destruct (existsb (String.eqb k) (dict_keys d)) eqn:E; [exact H|].
  apply NoDup_app; [exact H | repeat constructor; intros [] |].
  intros x Hx [<-|[]]. now apply (existsb_eqb_false _ _ E).
Qed.

Lemma dict_union_NoDup d1 d2 :
  NoDup (dict_keys d1) -> NoDup (dict_keys (dict_union d1 d2)).
Proof.
  revert d1. induction d2 as [|[k v] d2 IH]; intros d1 H; [exact H|].
  rewrite dict_union_cons. apply IH. now apply dict_set_NoDup.
Qed.

Lemma dict_keys_set_prefix d k v :
  exists added, dict_keys (dict_set d k v) = (dict_keys d ++ added)%list.
Proof.
  rewrite dict_keys_set.
  destruct (existsb (String.eqb k) (dict_keys d));
    [exists []; now rewrite app_nil_r | now exists [k]].
Qed.

Lemma dict_keys_union_prefix d1 d2 :
  exists added, dict_keys (dict_union d1 d2) = (dict_keys d1 ++ added)%list.
Proof.
  revert d1. induction d2 as [|[k v] d2 IH]; intros d1.
  - exists []. now rewrite app_nil_r.
  - rewrite dict_union_cons.
    destruct (IH (dict_set d1 k v)) as [a2 H2].
    destruct (dict_keys_set_prefix d1 k v) as [a1 H1].
    exists (a1 ++ a2)%list. now rewrite H2, H1, app_assoc.
Qed.

(** X8: looking a key up in [d1 | d2], for [d2] a dict (its keys are
    pairwise distinct): the value of [d2] when [d2] has the key, else the
    value of [d1]. *)
Theorem dict_union_lookup :
  forall d1 d2 k,
    NoDup (dict_keys d2) ->
    dict_get (dict_union d1 d2) k
    = match dict_get d2 k with
      | Some v => Some v
      | None => dict_get d1 k
      end.
Proof.
  intros d1 d2 k. revert d1.
  induction d2 as [|[k0 v0] d2 IH]; intros d1 Hnd; [reflexivity|].
  cbn [dict_keys map fst] in Hnd. apply NoDup_cons_iff in Hnd as [Hk0 Hnd].
  rewrite dict_union_cons, (IH _ Hnd), dict_get_set.
  unfold dict_get at 3. cbn [find fst snd].
  destruct (String.eqb_spec k0 k) as [->|Hne].
  - now rewrite (dict_get_None _ _ Hk0).
  - reflexivity.
Qed.

Lemma dict_union_lookup_witness :
  NoDup (dict_keys [("Abyssal whip", po [4151%Z] ["New"])]) /\
  dict_get (dict_union [("Abyssal whip", po [1%Z] []); ("Fire cape", po [6570%Z] [])]
                       [("Abyssal whip", po [4151%Z] ["New"])])
           "Abyssal whip"
  = Some (po [4151%Z] ["New"]).
Proof.
  assert (H : NoDup (dict_keys [("Abyssal whip", po [4151%Z] ["New"])]))
    by (repeat constructor; intros []).
  split; [exact H|].
  exact (dict_union_lookup
           [("Abyssal whip", po [1%Z] []); ("Fire cape", po [6570%Z] [])]
           [("Abyssal whip", po [4151%Z] ["New"])] "Abyssal whip" H).
Defined.

Lemma loop_body_Running offset equipment data offset' equipment' :
  loop_body offset equipment data = Running offset' equipment' ->
  exists results,
    resp_results data = Some results /\
    resp_continue data = Some offset' /\
    (offset <= offset')%Z /\
    equipment' = dict_union equipment results.
Proof.
  unfold loop_body.
  destruct (resp_results data) as [results|]; [|discriminate].
  destruct (resp_continue data) as [c|]; [|discriminate].
  destruct (Z.ltb_spec c offset); [discriminate|].
  intros [= <- <-]. now exists results.
Qed.

Lemma loop_body_equipment offset equipment data :
  equipment_of (loop_body offset equipment data) = equipment \/
  exists results,
    resp_results data = Some results /\
    equipment_of (loop_body offset equipment data) = dict_union equipment results.
Proof.
  unfold loop_body.
  destruct (resp_results data) as [results|]; [|now left].
  right. exists results. split; [reflexivity|].
  destruct (resp_continue data) as [c|]; [|reflexivity].
  now destruct (c <? offset)%Z.
Qed.

Lemma iterate_keys_distinct n responses :
  forall i st,
    NoDup (dict_keys (equipment_of st)) ->
    NoDup (dict_keys (equipment_of (iterate n responses i st))).
Proof.
  induction n as [|n IH]; intros i st H; [exact H|].
  cbn [iterate]. destruct st as [offset equipment|equipment]; [|exact H].
  apply IH. cbn [equipment_of] in H.
  destruct (loop_body_equipment offset equipment (responses i))
    as [-> | (results & _ & ->)]; [exact H | now apply dict_union_NoDup].
Qed.

(** X10: whatever the responses, the dict returned by [getEquipmentData]
    has pairwise distinct keys. *)
Theorem getEquipmentData_keys_distinct :
  forall fuel responses equipment,
    getEquipmentData fuel responses = Some equipment ->
    NoDup (dict_keys equipment).
Proof.
  intros fuel responses equipment. unfold getEquipmentData.
  pose proof (iterate_keys_distinct fuel responses 0 (Running 0 [])
                ltac:(constructor)) as H.
  destruct (iterate fuel responses 0 (Running 0 [])) as [o e|e];
    [discriminate|].
  now intros [= <-].
Qed.

Lemma getEquipmentData_keys_distinct_witness :
  getEquipmentData 2 paged_server = Some whip /\
  NoDup (dict_keys whip).
Proof.
  split; [reflexivity|].
  exact (getEquipmentData_keys_distinct 2 paged_server whip eq_refl).
Defined.

(** X11: while the loop runs, the offset sent with the requests never
    decreases, and the records merged so far keep their keys and their
    place: later pages only add keys after them. *)
Theorem iterate_offset_never_decreases :
  forall n responses i offset equipment offset' equipment',
    iterate n responses i (Running offset equipment)
    = Running offset' equipment' ->
    (offset <= offset')%Z /\
    exists added, dict_keys equipment' = (dict_keys equipment ++ added)%list.
Proof.
  induction n as [|n IH]; intros responses i offset equipment offset' equipment'.
  - cbn [iterate]. intros [= <- <-]. split; [lia|].
    exists []. now rewrite app_nil_r.
  - cbn [iterate].
    destruct (loop_body offset equipment (responses i)) as [o1 e1|e1] eqn:E.
    + intros H. apply IH in H as [Hle (a2 & Hk2)].
      apply loop_body_Running in E as (results & _ & _ & Hle1 & ->).
      split; [lia|].
      destruct (dict_keys_union_prefix equipment results) as [a1 Hk1].
      exists (a1 ++ a2)%list. now rewrite Hk2, Hk1, app_assoc.
    + rewrite iterate_Returned. discriminate.
Qed.

Lemma iterate_offset_never_decreases_witness :
  iterate 1 paged_server 0 (Running 0 [])
  = Running 500 [("Abyssal whip#Locked", po [21371%Z] ["Locked"])] /\
  (0 <= 500)%Z.
Proof.
  split; [reflexivity|].
  exact (proj1 (iterate_offset_never_decreases
                  1 paged_server 0 0%Z [] 500%Z
                  [("Abyssal whip#Locked", po [21371%Z] ["Locked"])] eq_refl)).
Defined.

Lemma loop_body_continues_at responses i :
  continues responses i = true ->
  loop_body (offset_before responses i) (pages_merged responses i) (responses i)
  = Running (offset_before responses (S i)) (pages_merged responses (S i)).
Proof.
  unfold continues, loop_body. cbn [offset_before pages_merged].
  destruct (resp_results (responses i)) as [results|]; [|discriminate].
  destruct (resp_continue (responses i)) as [c|]; [|discriminate].
  intros H. apply Z.leb_le in H.
  destruct (Z.ltb_spec c (offset_before responses i)); [lia | reflexivity].
Qed.

Lemma loop_body_stops_at responses i :
  continues responses i = false ->
  loop_body (offset_before responses i) (pages_merged responses i) (responses i)
  = Returned (pages_merged responses (S i)).
Proof.
  unfold continues, loop_body. cbn [pages_merged].
  destruct (resp_results (responses i)) as [results|]; [|reflexivity].
  destruct (resp_continue (responses i)) as [c|]; [|reflexivity].
  intros H. apply Z.leb_gt in H.
  destruct (Z.ltb_spec c (offset_before responses i)); [reflexivity | lia].
Qed.

Lemma iterate_while_continues responses n :
  forall i,
    (forall j, i <= j < i + n -> continues responses j = true) ->
    iterate n responses i
            (Running (offset_before responses i) (pages_merged responses i))
    = Running (offset_before responses (i + n)) (pages_merged responses (i + n)).
Proof.
  induction n as [|n IH]; intros i H.
  - now rewrite Nat.add_0_r.
  - cbn [iterate]. rewrite loop_body_continues_at by (apply H; lia).
    rewrite IH by (intros j Hj; apply H; lia).
    now rewrite Nat.add_succ_r.
Qed.

Lemma iterate_from_start responses n :
  (forall j, j < n -> continues responses j = true) ->
  iterate n responses 0 (Running 0 [])
  = Running (offset_before responses n) (pages_merged responses n).
Proof.
  intros H.
  apply (iterate_while_continues responses n 0). intros j Hj. apply H. lia.
Qed.

Lemma iterate_add responses a b :
  forall i st,
    iterate (a + b) responses i st
    = iterate b responses (i + a) (iterate a responses i st).
Proof.
  induction a as [|a IH]; intros i st.
  - cbn. now rewrite Nat.add_0_r.
  - cbn [Nat.add iterate]. destruct st as [o e|e].
    + rewrite IH. f_equal. lia.
    + now rewrite iterate_Returned.
Qed.

(** X12: on responses whose continuation offsets are JSON integers and
    whose result sets are JSON objects (the responses of type [response]):
    if the first [n] responses each carry a result set and a continuation
    offset not below the offset of their request, and the next response
    does not (no result set, no continuation offset, or a smaller one),
    then [getEquipmentData] has not returned within [n] requests and
    returns, at request [n + 1], the result sets of the responses received
    merged in order. *)
Theorem getEquipmentData_returns_merged_pages :
  forall responses n,
    (forall i, i < n -> continues responses i = true) ->
    continues responses n = false ->
    (forall fuel, fuel <= n -> getEquipmentData fuel responses = None) /\
    (forall fuel, n < fuel ->
       getEquipmentData fuel responses = Some (pages_merged responses (S n))).
Proof.
  intros responses n Hgo Hstop. split; intros fuel Hf; unfold getEquipmentData.
  - rewrite iterate_from_start; [reflexivity|].
    intros j Hj. apply Hgo. lia.
  - replace fuel with (n + S (fuel - S n)) by lia.
    rewrite iterate_add, (iterate_from_start _ _ Hgo).
    cbn [iterate Nat.add]. rewrite (loop_body_stops_at _ _ Hstop).
    now rewrite iterate_Returned.
Qed.

Lemma getEquipmentData_returns_merged_pages_witness :
  continues paged_server 0 = true /\
  continues paged_server 1 = false /\
  getEquipmentData 1 paged_server = None /\
  getEquipmentData 5 paged_server = Some whip.
Proof.
  split; [reflexivity|]. split; [reflexivity|].
  assert (Hgo : forall i, i < 1 -> continues paged_server i = true).
  { intros i Hi. assert (i = 0) as -> by lia. reflexivity. }
  destruct (getEquipmentData_returns_merged_pages paged_server 1 Hgo eq_refl)
    as [Hnone Hsome].
  split; [apply Hnone; lia | apply Hsome; lia].
Defined.

End FetchMore.

(** ** Further properties of the catalog *)

Module CatalogMore.
Import PyStr PyStrFacts Fetcher Resolver Mapping Notions Samples CatalogFacts.

Lemma rsplit_hash_None s : has_hash s = false -> rsplit_hash s = None.
Proof.
  induction s as [|c s IH]; cbn [has_hash rsplit_hash]; [reflexivity|].
  intros H. apply orb_false_iff in H as [Hc Hs].
  now rewrite (IH Hs), Hc.
Qed.

Lemma rsplit_hash_last before after :
  has_hash after = false ->
  rsplit_hash (before ++ "#" ++ after) = Some (before, after).
Proof.
  intros H. induction before as [|c before IH].
  - cbn. now rewrite (rsplit_hash_None _ H).
  - cbn [append rsplit_hash]. cbn [append] in IH. now rewrite IH.
Qed.

Lemma rsplit_hash_Some s before after :
  rsplit_hash s = Some (before, after) ->
  s = before ++ "#" ++ after /\ has_hash after = false.
Proof.
  revert before. induction s as [|c s IH]; intros before; cbn [rsplit_hash];
    [discriminate|].
  destruct (rsplit_hash s) as [[b a]|] eqn:E.
  - intros [= <- <-]. destruct (IH b eq_refl) as [-> Ha]. now split.
  - destruct (Ascii.eqb_spec c "#") as [->|Hc]; [|discriminate].
    intros [= <- <-]. split; [reflexivity|].
    clear IH. induction s as [|d s IH]; [reflexivity|].
    cbn [rsplit_hash] in E. cbn [has_hash].
    destruct (rsplit_hash s) as [[b a]|]; [discriminate|].
    destruct (Ascii.eqb d "#"); [discriminate|]. now apply IH.
Qed.

(** X1: the name of an item is its key cut at the last ['#']: for a key
    [n#v] where [v] holds no ['#'] the name is [n], even when [n] itself
    holds a ['#']; a key without ['#'] is the name as it is. *)
Theorem item_name_cut_at_last_hash :
  forall n v po,
    has_hash v = false ->
    name (item_of (n ++ "#" ++ v) po) = n /\
    name (item_of v po) = v.
Proof.
  intros n v po H. unfold item_of, rsplit_hash_head. cbn [name].
  now rewrite (rsplit_hash_last _ _ H), (rsplit_hash_None _ H).
Qed.

Lemma item_name_cut_at_last_hash_witness :
  has_hash "Locked" = false /\
  name (item_of "Rune pouch#old#Locked" (mkPrintouts [] [])) = "Rune pouch#old" /\
  name (item_of "Locked" (mkPrintouts [] [])) = "Locked".
Proof.
  split; [reflexivity|].
  exact (item_name_cut_at_last_hash "Rune pouch#old" "Locked"
           (mkPrintouts [] []) eq_refl).
Defined.

(** The name of an item is always a prefix of its key, and what is cut off
    starts with ['#'] and holds no other ['#']. *)
Lemma item_name_prefix k po :
  name (item_of k po) = k \/
  exists after, k = name (item_of k po) ++ "#" ++ after /\ has_hash after = false.
Proof.
  unfold item_of, rsplit_hash_head. cbn [name].
  destruct (rsplit_hash k) as [[b a]|] eqn:E; [right | now left].
  exists a. now apply rsplit_hash_Some.
Qed.

(** X2: the first loop of [main] handles the records one by one and in
    order: a record with printouts contributes its item, a record without
    printouts contributes nothing. *)
Theorem collect_items_record_by_record :
  forall (before : wiki_dict) k v (after : wiki_dict),
    collect_items (before ++ (k, v) :: after)%list
    = (collect_items before
       ++ match v with
          | Some po => [item_of k po]
          | None => []
          end
       ++ collect_items after)%list.
Proof.
  intros before k v after.
  rewrite !collect_items_flat_map, flat_map_app. cbn [flat_map].
  unfold items_of_record at 2. cbn [fst snd]. reflexivity.
Qed.

(** X3: the catalog seen by the second loop is a rearrangement of the items
    collected, in non-decreasing order of name, in which the items of one
    name keep the order in which they were collected. *)
Theorem all_items_sorted_stable :
  forall wiki_data,
    Sorted name_le (all_items_of wiki_data) /\
    Permutation (collect_items wiki_data) (all_items_of wiki_data) /\
    forall n, filter (fun y => name y =? n) (all_items_of wiki_data)
              = filter (fun y => name y =? n) (collect_items wiki_data).
Proof.
  intros wiki_data. unfold all_items_of.
  split; [apply sort_by_name_sorted|].
  split; [apply sort_by_name_perm | intros n; apply sort_by_name_stable].
Qed.

End CatalogMore.

(** ** Further properties of the resolver *)

Module ResolverMore.
Import PyStr PyStrFacts Re ReFacts Fetcher Resolver Mapping Notions Samples.
Import CatalogFacts OutputFacts InvariantFacts RuleFacts.

(** X4: the slayer-helmet pattern matches exactly the names made of one of
    the ten prefixes, " slayer helmet", the optional suffix " (i)" and an
    optional final line feed; group 1 is the suffix when it is there. *)
Theorem slayer_helm_re_matches :
  forall n g,
    re_match slayer_helm_re n = Some g <->
    exists p sfx e,
      In p SLAYER_PREFIXES /\
      (sfx = "" /\ g = None \/ sfx = " (i)" /\ g = Some " (i)") /\
      (e = "" \/ e = nl) /\
      n = p ++ " slayer helmet" ++ sfx ++ e.
Proof.
  intros n g. split; [apply slayer_helm_match_inv|].
  intros (p & sfx & e & Hp & Hsfx & He & ->).
  unfold SLAYER_PREFIXES in Hp. cbn [In] in Hp.
  destruct Hsfx as [[-> ->]|[-> ->]]; destruct He as [-> | ->];
    repeat (destruct Hp as [<-|Hp]; [reflexivity|]); contradiction.
Qed.

Lemma slayer_helm_re_matches_witness :
  re_match slayer_helm_re ("Hydra slayer helmet (i)" ++ nl) = Some (Some " (i)").
Proof.
  apply (proj2 (slayer_helm_re_matches _ _)).
  exists "Hydra", " (i)", nl. split; [cbn; tauto|].
  split; [right; split; reflexivity|]. split; [now right | reflexivity].
Defined.

(** X5: the two version patterns match exactly the listed tokens, each
    with an optional final line feed. *)
Theorem version_patterns_match :
  forall v,
    (re_test minigame_re v = true <->
     exists tok, In tok MINIGAME_TOKENS /\ (v = tok \/ v = tok ++ nl)) /\
    (re_test degraded_re v = true <->
     exists tok, In tok DEGRADED_TOKENS /\ (v = tok \/ v = tok ++ nl)).
Proof.
  intros v. split; (split; [apply token_pattern_match|]).
  - intros (tok & Hin & Hv). unfold MINIGAME_TOKENS in Hin. cbn [In] in Hin.
    destruct Hv as [-> | ->];
      repeat (destruct Hin as [<-|Hin]; [reflexivity|]); contradiction.
  - intros (tok & Hin & Hv). unfold DEGRADED_TOKENS in Hin. cbn [In] in Hin.
    destruct Hv as [-> | ->];
      repeat (destruct Hin as [<-|Hin]; [reflexivity|]); contradiction.
Qed.

Lemma version_patterns_match_witness :
  re_test degraded_re "100" = true /\ re_test minigame_re "Soul Wars" = true.
Proof.
  split.
  - apply (proj2 (proj2 (version_patterns_match "100"))).
    exists "100". split; [cbn; tauto | now left].
  - apply (proj2 (proj1 (version_patterns_match "Soul Wars"))).
    exists "Soul Wars". split; [cbn; tauto | now left].
Defined.

(** The key that a branch of the chain looks up, branch by branch. *)
Lemma base_key_Some it bn bv :
  base_key it = Some (bn, bv) ->
  (version it = "Locked" /\ bn = name it /\ bv = "Normal") \/
  (exists g, re_match slayer_helm_re (name it) = Some g /\
             bn = "Slayer helmet" ++ or_empty g /\ bv = "") \/
  (re_test minigame_re (version it) = true /\
   bn = name it /\ bv = "Nightmare Zone") \/
  (re_test degraded_re (version it) = true /\
   bn = name it /\ bv = "Undamaged").
Proof.
  unfold base_key.
  destruct (String.eqb_spec (version it) "Locked") as [Hl|Hl].
  - intros [= <- <-]. now left.
  - destruct (re_match slayer_helm_re (name it)) as [g|] eqn:Es.
    + intros [= <- <-]. right. left. now exists g.
    + destruct (re_test minigame_re (version it)) eqn:Em.
      * intros [= <- <-]. right. right. now left.
      * destruct (re_test degraded_re (version it)) eqn:Ed; [|discriminate].
        intros [= <- <-]. right. right. now right.
Qed.

Lemma base_key_designated it bn bv base :
  base_key it = Some (bn, bv) ->
  name base = bn -> version base = bv ->
  is_designated_base it base = true.
Proof.
  intros Hk Hn Hv. unfold is_designated_base.
  apply base_key_Some in Hk
    as [(Hl & -> & ->) | [(g & Hg & -> & ->) | [(_ & -> & ->) | (_ & -> & ->)]]].
  - now rewrite Hl, Hn, Hv, !String.eqb_refl.
  - apply slayer_helm_match_inv in Hg as (_ & sfx & _ & _ & Hsfx & _ & _).
    rewrite Hn, Hv.
    destruct Hsfx as [[_ ->] | [_ ->]]; cbn; now rewrite ?orb_true_r.
  - rewrite Hn, Hv, !String.eqb_refl. cbn. now rewrite ?orb_true_r.
  - rewrite Hn, Hv, !String.eqb_refl. cbn. now rewrite ?orb_true_r.
Qed.

(** X6: every entry of the output pairs two records of the catalog, the
    variant and a base whose name and version are the ones a branch looks
    up: the name of the variant with version "Normal" (for a Locked
    variant), "Nightmare Zone" or "Undamaged", or the name "Slayer helmet"
    or "Slayer helmet (i)" with empty version. *)
Theorem alias_mapping_sound :
  forall wiki_data e,
    In e (alias_mapping wiki_data) ->
    exists it base,
      In it (all_items_of wiki_data) /\
      In base (all_items_of wiki_data) /\
      e = alias_for it base /\
      is_designated_base it base = true.
Proof.
  intros wiki_data e He.
  apply aliases_origin in He as (it & base & bn & bv & Hit & Hk & Hf & ->).
  apply find_base_Some in Hf as (Hb & Hn & Hv).
  exists it, base. split; [exact Hit|]. split; [exact Hb|].
  split; [reflexivity|]. eapply base_key_designated; eassumption.
Qed.

Lemma alias_mapping_sound_witness :
  In (alias_for whip_locked whip_normal) (alias_mapping whip) /\
  exists it base,
    alias_for whip_locked whip_normal = alias_for it base /\
    is_designated_base it base = true.
Proof.
  assert (He : In (alias_for whip_locked whip_normal) (alias_mapping whip))
    by (left; reflexivity).
  split; [exact He|].
  destruct (alias_mapping_sound whip _ He) as (it & base & _ & _ & Heq & Hd).
  now exists it, base.
Defined.

(** X7: the key that a branch looks up is never the (name, version) pair
    of the record itself, so the base found for a record is another
    record. *)
Theorem base_is_another_record :
  forall all_items it bn bv base,
    base_key it = Some (bn, bv) ->
    find_base all_items bn bv = Some base ->
    is_base bn bv it = false /\ base <> it.
Proof.
  intros all_items it bn bv base Hk Hf.
  assert (Hself : is_base bn bv it = false).
  { unfold is_base.
    apply base_key_Some in Hk
      as [(Hl & -> & ->) | [(g & Hg & -> & ->) | [(Hm & -> & ->) | (Hd & -> & ->)]]].
    - rewrite Hl. cbn. apply andb_false_r.
    - apply slayer_helm_match_inv in Hg as (p & sfx & e & Hp & _ & _ & ->).
      unfold SLAYER_PREFIXES in Hp. cbn [In] in Hp.
      repeat (destruct Hp as [<-|Hp]; [reflexivity|]). contradiction.
    - apply token_pattern_match in Hm as (tok & Hin & Hv). cbn [In] in Hin.
      destruct Hv as [-> | ->];
        repeat (destruct Hin as [<-|Hin]; [cbn; apply andb_false_r|]);
        contradiction.
    - apply token_pattern_match in Hd as (tok & Hin & Hv). cbn [In] in Hin.
      destruct Hv as [-> | ->];
        repeat (destruct Hin as [<-|Hin]; [cbn; apply andb_false_r|]);
        contradiction. }
  split; [exact Hself|]. intros ->.
  unfold find_base in Hf. apply find_some in Hf as [_ Hb]. congruence.
Qed.

Lemma base_is_another_record_witness :
  base_key whip_locked = Some ("Abyssal whip", "Normal") /\
  find_base (all_items_of whip) "Abyssal whip" "Normal" = Some whip_normal /\
  whip_normal <> whip_locked.
Proof.
  split; [reflexivity|]. split; [reflexivity|].
  exact (proj2 (base_is_another_record (all_items_of whip) whip_locked
                  "Abyssal whip" "Normal" whip_normal eq_refl eq_refl)).
Defined.

End ResolverMore.

(** ** Further properties of the output *)

Module OutputMore.
Import PyStr PyStrFacts Re Fetcher Resolver Mapping Notions Samples.
Import CatalogFacts OutputFacts InvariantFacts RuleFacts WriteFacts Lookup.

Lemma emitted_at_most_one all_items it :
  List.length (emitted all_items it) <= 1.
Proof.
  unfold emitted. destruct (base_key it) as [[bn bv]|]; [|cbn; lia].
  destruct (find_base all_items bn bv); cbn; lia.
Qed.

Lemma aliases_length all_items items :
  List.length (aliases all_items items) <= List.length items.
Proof.
  unfold aliases. induction items as [|it items IH]; [cbn; lia|].
  cbn [flat_map]. rewrite length_app. cbn [List.length].
  pose proof (emitted_at_most_one all_items it). lia.
Qed.

Lemma collect_items_length (wiki_data : wiki_dict) :
  List.length (collect_items wiki_data) <= List.length wiki_data.
Proof.
  rewrite collect_items_flat_map.
  induction wiki_data as [|[k v] w IH]; [cbn; lia|].
  cbn [flat_map]. rewrite length_app. unfold items_of_record at 1.
  cbn [snd List.length]. destruct v; cbn [List.length]; lia.
Qed.

Lemma existsb_find {A : Type} (p : A -> bool) (l : list A) :
  existsb p l = match find p l with Some _ => true | None => false end.
Proof.
  induction l as [|x l IH]; cbn [existsb find]; [reflexivity|].
  now destruct (p x).
Qed.

Lemma has_base_false all_items it :
  has_base all_items it = false -> emitted all_items it = [].
Proof.
  unfold has_base, emitted, find_base.
  destruct (base_key it) as [[bn bv]|]; [|reflexivity].
  rewrite existsb_find.
  now destruct (find (is_base bn bv) all_items).
Qed.

Lemma has_base_true all_items it :
  has_base all_items it = true ->
  exists bn bv b,
    base_key it = Some (bn, bv) /\
    find_base all_items bn bv = Some b /\
    emitted all_items it = [alias_for it b].
Proof.
  unfold has_base, emitted, find_base.
  destruct (base_key it) as [[bn bv]|]; [|discriminate].
  rewrite existsb_find.
  destruct (find (is_base bn bv) all_items) as [b|] eqn:E; [|discriminate].
  intros _. exists bn, bv, b. now rewrite E.
Qed.

Lemma aliases_of_items_with_base all_items items :
  map variant_id (aliases all_items items)
  = map id (filter (has_base all_items) items) /\
  map comment (aliases all_items items)
  = map (fun it => name it ++ "#" ++ version it)
        (filter (has_base all_items) items).
Proof.
  unfold aliases. induction items as [|it items [IH1 IH2]]; [now split|].
  cbn [flat_map filter]. rewrite !map_app, IH1, IH2.
  destruct (has_base all_items it) eqn:E.
  - destruct (has_base_true _ _ E) as (bn & bv & b & _ & _ & ->). now split.
  - rewrite (has_base_false _ _ E). now split.
Qed.

(** X13: item by item: an item of the catalog that no branch takes, or
    whose base key no record has, makes the loop body write nothing; any
    other item makes it append exactly one line, pairing the item with a
    record of the catalog.  The entries of the output are, in catalog
    order, those of the items of the second kind: one entry each, with the
    identifier and the name#version of the item. *)
Theorem one_entry_per_item_with_base :
  forall wiki_data,
    (forall it text,
        has_base (all_items_of wiki_data) it = false ->
        main_step (all_items_of wiki_data) it text = text) /\
    (forall it,
        has_base (all_items_of wiki_data) it = true ->
        exists b,
          In b (all_items_of wiki_data) /\
          forall text,
            main_step (all_items_of wiki_data) it text
            = text ++ entry_line (alias_for it b)) /\
    map variant_id (alias_mapping wiki_data)
    = map id (filter (has_base (all_items_of wiki_data))
                     (all_items_of wiki_data)) /\
    map comment (alias_mapping wiki_data)
    = map (fun it => name it ++ "#" ++ version it)
          (filter (has_base (all_items_of wiki_data))
                  (all_items_of wiki_data)).
Proof.
  intros wiki_data. split.
  { intros it text H. rewrite main_step_emitted, (has_base_false _ _ H).
    cbn [map concat_all]. apply append_empty_r. }
  split.
  { intros it H. destruct (has_base_true _ _ H) as (bn & bv & b & Hk & Hf & _).
    exists b. split; [now apply (find_base_Some _ bn bv)|].
    intros text. now apply (main_step_found _ _ bn bv). }
  apply aliases_of_items_with_base.
Qed.

Lemma one_entry_per_item_with_base_witness :
  has_base (all_items_of barrows) dharok_undamaged = false /\
  (forall text,
      main_step (all_items_of barrows) dharok_undamaged text = text) /\
  map variant_id (alias_mapping barrows) = [Some 4880%Z; Some 4883%Z].
Proof.
  destruct (one_entry_per_item_with_base barrows) as (Hnone & _ & Hids & _).
  split; [reflexivity|].
  split; [intros text; exact (Hnone dharok_undamaged text eq_refl)|].
  exact Hids.
Defined.

Lemma aliases_nil all_items items :
  (forall it, In it items -> base_key it = None) ->
  aliases all_items items = [].
Proof.
  unfold aliases. induction items as [|it items IH]; intros H; [reflexivity|].
  cbn [flat_map].
  rewrite (proj1 (unclassified_emits_nothing all_items it (H it (or_introl eq_refl)))).
  apply IH. intros x Hx. apply H. now right.
Qed.

(** X14: when no fetched record with printouts is taken by a branch of the
    chain (records without printouts do not count, and the empty result is
    a case of this), the text written is the header followed by the closing
    brace on its own line. *)
Theorem main_without_variants :
  forall wiki_data,
    (forall k po, In (k, Some po) wiki_data -> base_key (item_of k po) = None) ->
    alias_mapping wiki_data = [] /\
    main wiki_data = data ++ (nl ++ "}").
Proof.
  intros wiki_data H.
  assert (Hnil : alias_mapping wiki_data = []).
  { unfold alias_mapping. apply aliases_nil. intros it Hit.
    unfold all_items_of in Hit. apply (proj1 (sort_by_name_In _ _)) in Hit.
    rewrite collect_items_flat_map in Hit.
    apply in_flat_map in Hit as ([k v] & Hkv & Hin).
    unfold items_of_record in Hin. cbn [fst snd] in Hin.
    destruct v as [po|]; [|contradiction].
    destruct Hin as [<-|[]]. now apply H. }
  split; [exact Hnil|].
  now rewrite main_serialized, Hnil.
Qed.

Lemma main_without_variants_witness :
  main [("Zed", None); ("Abyssal whip", po [4151%Z] [])] = data ++ (nl ++ "}").
Proof.
  apply main_without_variants.
  intros k p [H|[H|[]]]; [discriminate|].
  injection H as <- <-. reflexivity.
Defined.

Lemma ascii_compare_refl (c : ascii) : Ascii.compare c c = Eq.
Proof. unfold Ascii.compare. apply N.compare_refl. Qed.

Lemma string_compare_le_trans (a b c : string) :
  String.compare a b <> Gt -> String.compare b c <> Gt ->
  String.compare a c <> Gt.
Proof.
  revert b c. induction a as [|x a IH]; intros [|y b] [|z c]; cbn;
    try congruence.
  destruct (Ascii.compare x y) eqn:Exy; try congruence;
    destruct (Ascii.compare y z) eqn:Eyz; try congruence.
  - apply Ascii.compare_eq_iff in Exy, Eyz. subst.
    rewrite ascii_compare_refl. apply IH.
  - apply Ascii.compare_eq_iff in Exy. subst. rewrite Eyz. congruence.
  - apply Ascii.compare_eq_iff in Eyz. subst. rewrite Exy. congruence.
  - unfold Ascii.compare in *. rewrite N.compare_lt_iff in Exy, Eyz.
    assert (H : (N_of_ascii x ?= N_of_ascii z)%N = Lt)
      by (apply N.compare_lt_iff; lia).
    rewrite H. congruence.
Qed.

Lemma name_le_trans x y z : name_le x y -> name_le y z -> name_le x z.
Proof.
  unfold name_le, String.leb. intros Hxy Hyz.
  pose proof (string_compare_le_trans (name x) (name y) (name z)) as H.
  destruct (String.compare (name x) (name y)); try discriminate;
    destruct (String.compare (name y) (name z)); try discriminate;
    destruct (String.compare (name x) (name z)); try reflexivity;
    exfalso; apply H; congruence.
Qed.

Lemma StronglySorted_filter (p : item -> bool) l :
  StronglySorted name_le l -> StronglySorted name_le (filter p l).
Proof.
  induction 1 as [|x l Hs IH Hall]; cbn [filter]; [constructor|].
  destruct (p x); [|exact IH]. constructor; [exact IH|].
  rewrite Forall_forall in *. intros y Hy. apply Hall.
  now apply filter_In in Hy.
Qed.

(** X15: the entries of the output follow the catalog order: they can be
    read as pairs of a variant and a base such that the names of the
    variants, in output order, never decrease. *)
Theorem alias_mapping_in_name_order :
  forall wiki_data,
    exists pairs : list (item * item),
      alias_mapping wiki_data = map (fun vb => alias_for (fst vb) (snd vb)) pairs /\
      Sorted name_le (map fst pairs).
Proof.
  intros wiki_data. unfold alias_mapping.
  set (all_items := all_items_of wiki_data).
  set (pair_of := fun it : item =>
                    match base_key it with
                    | Some (bn, bv) =>
                        match find_base all_items bn bv with
                        | Some b => [(it, b)]
                        | None => []
                        end
                    | None => []
                    end).
  assert (Hmap : forall items,
             aliases all_items items
             = map (fun vb => alias_for (fst vb) (snd vb)) (flat_map pair_of items)).
  { induction items as [|it items IH]; [reflexivity|].
    unfold aliases in *. cbn [flat_map]. rewrite map_app, <- IH. f_equal.
    unfold emitted, pair_of. destruct (base_key it) as [[bn bv]|]; [|reflexivity].
    now destruct (find_base all_items bn bv). }
  assert (Hfst : forall items,
             map fst (flat_map pair_of items)
             = filter (fun it => match pair_of it with [] => false | _ => true end)
                      items).
  { induction items as [|it items IH]; [reflexivity|].
    cbn [flat_map filter]. rewrite map_app, IH.
    unfold pair_of at 1 3. destruct (base_key it) as [[bn bv]|]; [|reflexivity].
    now destruct (find_base all_items bn bv). }
  exists (flat_map pair_of all_items). split; [apply Hmap|].
  rewrite Hfst. apply StronglySorted_Sorted, StronglySorted_filter.
  apply Sorted_StronglySorted; [|apply sort_by_name_sorted].
  intros x y z. apply name_le_trans.
Qed.

End OutputMore.

(** ** Further properties of merging and formatting *)

Module FormatMore.
Import PyStr PyStrFacts Fetcher Resolver Mapping Notions Samples FetchMore.

Lemma dict_keys_set_In d k v k' :
  In k' (dict_keys (dict_set d k v)) <-> In k' (dict_keys d) \/ k' = k.
Proof.
  rewrite dict_keys_set.
  destruct (existsb (String.eqb k) (dict_keys d)) eqn:E.
  - split; [now left|]. intros [H| ->]; [exact H|].
    apply existsb_exists in E as (x & Hx & Hk).
    apply String.eqb_eq in Hk. now subst x.
  - rewrite in_app_iff. cbn [In]. intuition congruence.
Qed.

(** X9: merging loses no record and invents none: a key is in [d1 | d2]
    exactly when it is in [d1] or in [d2]. *)
Theorem dict_union_keys :
  forall d1 d2 k,
    In k (dict_keys (dict_union d1 d2)) <->
    In k (dict_keys d1) \/ In k (dict_keys d2).
Proof.
  intros d1 d2 k. revert d1.
  induction d2 as [|[k0 v0] d2 IH]; intros d1.
  - cbn. tauto.
  - rewrite dict_union_cons, IH, dict_keys_set_In.
    cbn [dict_keys map fst In]. intuition congruence.
Qed.

Lemma dict_union_keys_witness :
  In "Fire cape" (dict_keys (dict_union whip [("Fire cape", po [6570%Z] [])])).
Proof.
  apply (proj2 (dict_union_keys whip [("Fire cape", po [6570%Z] [])] "Fire cape")).
  right. left. reflexivity.
Defined.

Lemma to_int_not_nil (n : Z) :
  Z.to_int n <> Decimal.Pos Decimal.Nil /\ Z.to_int n <> Decimal.Neg Decimal.Nil.
Proof.
  destruct n as [|p|p]; cbn; split; try discriminate; intros [= H];
    now apply Unsigned.to_uint_nonnil in H.
Qed.

Lemma int_of_str_int (n : Z) :
  NilZero.int_of_string (str_int n) = Some (Z.to_int n).
Proof.
  unfold str_int. destruct (to_int_not_nil n). now apply NilZero.isi.
Qed.

(** X16: the text written for an identifier determines the identifier:
    two numbers written alike are equal, and no number is written like the
    absent identifier. *)
Theorem str_opt_int_injective :
  forall a b, str_opt_int a = str_opt_int b -> a = b.
Proof.
  intros [x|] [y|]; cbn [str_opt_int]; intros H; try reflexivity.
  - f_equal. apply to_int_inj.
    apply (f_equal NilZero.int_of_string) in H.
    rewrite !int_of_str_int in H. congruence.
  - apply (f_equal NilZero.int_of_string) in H.
    rewrite int_of_str_int in H. discriminate.
  - apply (f_equal NilZero.int_of_string) in H.
    rewrite int_of_str_int in H. discriminate.
Qed.

Lemma str_opt_int_injective_witness :
  str_opt_int (Some 4151%Z) = "4151" /\ Some 4151%Z = Some (4000 + 151)%Z.
Proof.
  split; [reflexivity|].
  exact (str_opt_int_injective (Some 4151%Z) (Some (4000 + 151)%Z) eq_refl).
Defined.

End FormatMore.

(** ** The keys of the generated mapping *)

Module OutputKeys.
Import PyStr PyStrFacts Fetcher Resolver Mapping Notions Samples.
Import CatalogFacts OutputFacts InvariantFacts FormatMore.

Lemma variant_ids_of_aliases all_items items :
  map variant_id (aliases all_items items)
  = map id (filter (fun it => match emitted all_items it with
                              | [] => false
                              | _ => true
                              end) items).
Proof.
  unfold aliases. induction items as [|it items IH]; [reflexivity|].
  cbn [flat_map filter]. rewrite map_app, IH.
  unfold emitted at 1 3. destruct (base_key it) as [[bn bv]|]; [|reflexivity].
  now destruct (find_base all_items bn bv).
Qed.

Lemma NoDup_map_filter {A B : Type} (f : A -> B) (p : A -> bool) l :
  NoDup (map f l) -> NoDup (map f (filter p l)).
Proof.
  induction l as [|x l IH]; cbn [map filter]; intros H; [constructor|].
  apply NoDup_cons_iff in H as [Hx Hl].
  destruct (p x); [|now apply IH].
  cbn [map]. constructor; [|now apply IH].
  intros Hin. apply Hx. apply in_map_iff in Hin as (y & Hy & Hin).
  apply filter_In in Hin as [Hin _]. rewrite <- Hy. now apply in_map.
Qed.

Lemma NoDup_map_injective {A B : Type} (f : A -> B) l :
  (forall a b, f a = f b -> a = b) -> NoDup l -> NoDup (map f l).
Proof.
  intros Hf. induction 1 as [|x l Hx Hl IH]; cbn [map]; constructor; [|exact IH].
  intros Hin. apply in_map_iff in Hin as (y & Hy & Hin).
  apply Hf in Hy. now subst y.
Qed.

(** X17: on a catalog that meets the invariants of the data model, the
    generated mapping has no duplicate key: the texts written for the
    variant identifiers of its entries are pairwise distinct. *)
Theorem output_keys_distinct :
  forall wiki_data,
    catalog_invariants (all_items_of wiki_data) = true ->
    NoDup (map (fun e => str_opt_int (variant_id e)) (alias_mapping wiki_data)).
Proof.
  intros wiki_data Hinv.
  unfold catalog_invariants in Hinv. apply andb_true_iff in Hinv as [Hu Hs].
  rewrite <- (map_map variant_id str_opt_int).
  apply NoDup_map_injective; [apply str_opt_int_injective|].
  unfold alias_mapping. rewrite variant_ids_of_aliases.
  apply NoDup_map_filter, invariants_ids_NoDup;
    [exact Hu | now apply ids_not_shared_spec].
Qed.

Lemma output_keys_distinct_witness :
  catalog_invariants (all_items_of barrows) = true /\
  map (fun e => str_opt_int (variant_id e)) (alias_mapping barrows)
  = ["4880"; "4883"] /\
  NoDup (map (fun e => str_opt_int (variant_id e)) (alias_mapping barrows)).
Proof.
  split; [reflexivity|]. split; [reflexivity|].
  exact (output_keys_distinct barrows eq_refl).
Defined.

End OutputKeys.

(** ** Integer and string continuation offsets *)

Module FetchJsonFacts.
Import PyStr Fetcher FetcherJson Samples.

Lemma json_loop_body_integer int_of_str offset equipment r :
  json_loop_body int_of_str (JInt offset) equipment (of_response r)
  = of_state (loop_body offset equipment r).
Proof.
  unfold json_loop_body, loop_body, of_response. cbn [jr_results jr_continue].
  destruct (resp_results r) as [results|]; [|reflexivity].
  destruct (resp_continue r) as [c|]; [|reflexivity].
  cbn [option_map py_int int_lt].
  now destruct (c <? offset)%Z.
Qed.

(** X18: on responses whose continuation offsets are integers, the loop
    with raw JSON offsets does what the loop on integers does, iteration
    by iteration: it never raises, and it runs or returns with the same
    offset and equipment, whatever [int] does on strings. *)
Theorem json_iterate_integer :
  forall int_of_str n responses i st,
    json_iterate int_of_str n (fun j => of_response (responses j)) i (of_state st)
    = of_state (iterate n responses i st).
Proof.
  intros int_of_str n. induction n as [|n IH]; intros responses i st;
    [reflexivity|].
  cbn [json_iterate iterate]. destruct st as [offset equipment|equipment];
    cbn [of_state]; [|reflexivity].
  now rewrite json_loop_body_integer, IH.
Qed.

(** X19: a continuation offset sent as a string is kept as the offset, so
    with a first response that carries a result set and such an offset
    (one that [int] accepts and that is not negative), a second response
    that carries a result set and any continuation offset makes the
    function raise instead of fetching on. *)
Theorem json_string_offset_raises :
  forall int_of_str responses s n results0 results1 c fuel,
    jr_results (responses 0) = Some results0 ->
    jr_continue (responses 0) = Some (JStr s) ->
    int_of_str s = Some n ->
    (0 <= n)%Z ->
    jr_results (responses 1) = Some results1 ->
    jr_continue (responses 1) = Some c ->
    json_iterate int_of_str (2 + fuel) responses 0 (JRunning (JInt 0) [])
    = JRaised.
Proof.
  intros int_of_str responses s n results0 results1 c fuel
         Hr0 Hc0 Hs Hn Hr1 Hc1.
  assert (H0 : json_loop_body int_of_str (JInt 0) [] (responses 0)
               = JRunning (JStr s) (dict_union [] results0)).
  { unfold json_loop_body. rewrite Hr0, Hc0. cbn [py_int int_lt]. rewrite Hs.
    destruct (Z.ltb_spec n 0); [lia | reflexivity]. }
  assert (H1 : forall equipment,
             json_loop_body int_of_str (JStr s) equipment (responses 1)
             = JRaised).
  { intros equipment. unfold json_loop_body. rewrite Hr1, Hc1.
    now destruct (py_int int_of_str c). }
  cbn [Nat.add json_iterate]. rewrite H0, H1. now destruct fuel.
Qed.

Lemma json_string_offset_raises_witness :
  json_iterate (fun _ => Some 500%Z) 2
    (fun i => {| jr_results := Some [("Abyssal whip", po [4151%Z] [])];
                 jr_continue := Some (JStr "500") |})
    0 (JRunning (JInt 0) [])
  = JRaised.
Proof.
  exact (json_string_offset_raises
           (fun _ => Some 500%Z)
           (fun i => {| jr_results := Some [("Abyssal whip", po [4151%Z] [])];
                        jr_continue := Some (JStr "500") |})
           "500" 500%Z _ _ (JStr "500") 0
           eq_refl eq_refl eq_refl ltac:(lia) eq_refl eq_refl).
Defined.

End FetchJsonFacts.
